(** * aibrite.ml.analyser: job records, job runner and completion drain

    A shallow embedding of [src/aibrite/ml/analyser.py].

    - Python dicts with string keys are [gmap string value]; the dict
      display [{**a, **b}] is [splat [a; b]] (later mappings win).
    - Python lists are Rocq lists; [append] adds at the end.
    - A call that may raise returns a [result].
    - The clock, the uuid generator, the classifier, the scoring function
      and the csv writer are collaborators outside this module: they are
      arguments of the definitions that use them. *)

From Stdlib Require Import Ascii.
From stdpp Require Import base strings gmap list sorting.

Open Scope string_scope.

(** ** Python values, dicts, exceptions *)

(** The values that end up in a log row.  Metric values are carried
    around and never computed on; a float is held as mantissa and
    exponent, standing for [m * 2^e]. *)
Inductive value :=
  | VInt (n : Z)
  | VFloat (m e : Z)
  | VStr (s : string)
  | VTime (t : Z).

Abbreviation dict := (gmap string value).

(** [{**d1, **d2, ..., **dn}]: keys of later mappings replace earlier ones. *)
Definition splat (ds : list dict) : dict :=
  foldl (λ acc d, d ∪ acc) ∅ ds.

(** An exception object: the name of its class and [str(exc)].
    [Exception] is an instance of a class that derives from [Exception];
    [BaseException] is an instance of a class that derives from
    [BaseException] and not from [Exception]: [SystemExit],
    [KeyboardInterrupt], [GeneratorExit]. *)
Inductive exn :=
  | Exception (class text : string)
  | BaseException (class text : string).


(** [str(exc)] *)
Definition exc_str (exc : exn) : string :=
  match exc with
  | Exception _ text | BaseException _ text => text
  end.

(** [isinstance(exc, Exception)]: whether [except Exception] catches it. *)
Definition is_Exception (exc : exn) : bool :=
  match exc with
  | Exception _ _ => true
  | BaseException _ _ => false
  end.

Inductive result (A : Type) :=
  | Ok (a : A)
  | Raise (e : exn).
Arguments Ok {A} a.
Arguments Raise {A} e.

#[global] Instance result_ret : MRet result := λ A a, Ok a.
#[global] Instance result_bind : MBind result := λ A B f m,
  match m with
  | Ok a => f a
  | Raise e => Raise e
  end.

Definition is_ok {A} (r : result A) : bool :=
  match r with Ok _ => true | Raise _ => false end.

(** [repr(s)] of a str [s] of ASCII characters.  The quote is the
    double quote when [s] has a single quote and no double quote, and
    the single quote otherwise; the quote and the backslash get a
    backslash in front, tab, newline and carriage return are written
    [\t], [\n], [\r], the other control characters [\xhh]. *)
Definition single_quote : ascii := "039"%char.
Definition double_quote : ascii := "034"%char.
Definition backslash : ascii := "092"%char.

Fixpoint contains (c : ascii) (s : string) : bool :=
  match s with
  | EmptyString => false
  | String c' s => bool_decide (c' = c) || contains c s
  end.

Definition hex_digit (n : N) : ascii :=
  match n with
  | 0 => "0" | 1 => "1" | 2 => "2" | 3 => "3" | 4 => "4" | 5 => "5"
  | 6 => "6" | 7 => "7" | 8 => "8" | 9 => "9" | 10 => "a" | 11 => "b"
  | 12 => "c" | 13 => "d" | 14 => "e" | _ => "f"
  end%N%char.

Definition repr_char (quote c : ascii) : string :=
  if bool_decide (c = quote) || bool_decide (c = backslash)
  then String backslash (String c EmptyString)
  else if bool_decide (c = "009"%char) then String backslash "t"
  else if bool_decide (c = "010"%char) then String backslash "n"
  else if bool_decide (c = "013"%char) then String backslash "r"
  else
    let n := N_of_ascii c in
    if (n <? 32)%N || (n =? 127)%N
    then String backslash
           (String "x" (String (hex_digit (n / 16))
                          (String (hex_digit (n mod 16)) EmptyString)))
    else String c EmptyString.

Fixpoint repr_chars (quote : ascii) (s : string) : string :=
  match s with
  | EmptyString => EmptyString
  | String c s => repr_char quote c ++ repr_chars quote s
  end.

Definition repr (s : string) : string :=
  let quote :=
    if contains single_quote s && negb (contains double_quote s)
    then double_quote else single_quote in
  String quote (repr_chars quote s ++ String quote EmptyString).

Definition IndexError : exn := Exception "IndexError" "list index out of range".
(** [KeyError(k)] for a str [k]: [str] of a [KeyError] with one argument
    is the [repr] of the argument. *)
Definition KeyError (k : string) : exn := Exception "KeyError" (repr k).
Definition ValueError (m : string) : exn := Exception "ValueError" m.

(** [l[i]] for [0 <= i]. *)
Definition index (l : list value) (i : nat) : result value :=
  match l !! i with
  | Some v => Ok v
  | None => Raise IndexError
  end.

(** ** Collaborators as seen from this module *)

(** What [add_to_train_log] and [add_to_prediction_log] read from a
    classifier instance. *)
Record Classifier := {
  class_name : string;          (* neuralnet.__class__.__name__ *)
  instance_id : value;          (* neuralnet.instance_id *)
  get_hyperparameters : dict;   (* neuralnet.get_hyperparameters() *)
}.

(** The score report: per-label arrays, the [totals] tuple, [accuracy]. *)
Record ScoreReport := {
  labels : list value;
  precision : list value;
  recall : list value;
  f1 : list value;
  support : list value;
  accuracy : value;
  totals : value * value * value * value;
}.

(** The values of [job.status]. *)
Inductive Status :=
  | created
  | training_started
  | prediction_started
  | completed.

(** ** class AnalyserJob *)

Module AnalyserJob.

(** The job object between two method calls.  [_trainlock] and
    [_predlock] are created free and every [with] block releases what it
    acquired, so between calls both are free; who holds them inside a
    call is part of the threaded model [Threads] below. *)
Record t := {
  id : string;
  status : Status;
  _prediction_data : list dict;
  _train_data : list dict;
}.

(** [AnalyserJob()], with [uuid] the string of the uuid4 drawn. *)
Definition __init__ (uuid : string) : t :=
  {| id := uuid; status := created; _prediction_data := []; _train_data := [] |}.

Definition set_status (job : t) (s : Status) : t :=
  {| id := id job; status := s;
     _prediction_data := _prediction_data job; _train_data := _train_data job |}.

Definition append_train (job : t) (data : dict) : t :=
  {| id := id job; status := status job;
     _prediction_data := _prediction_data job;
     _train_data := _train_data job ++ [data] |}.

Definition append_prediction (job : t) (data : dict) : t :=
  {| id := id job; status := status job;
     _prediction_data := _prediction_data job ++ [data];
     _train_data := _train_data job |}.

(** [extra_data if extra_data != None else {}] *)
Definition or_empty (extra_data : option dict) : dict :=
  default ∅ extra_data.

Definition train_base_cols (now : Z) (neuralnet : Classifier) : dict :=
  list_to_map [
    ("timestamp", VTime now);
    ("classifier", VStr (class_name neuralnet));
    ("classifier_id", instance_id neuralnet) ].

(** The record [add_to_train_log] builds. *)
Definition train_record (now : Z) (neuralnet : Classifier)
    (train_data : dict) (extra_data : option dict) : dict :=
  let extra_data := or_empty extra_data in
  let hyper_parameters := get_hyperparameters neuralnet in
  let base_cols := train_base_cols now neuralnet in
  splat [base_cols; train_data; hyper_parameters; extra_data].

(** [job.add_to_train_log(neuralnet, train_data, extra_data)] at clock
    reading [now]: the job afterwards and the value returned. *)
Definition add_to_train_log (job : t) (now : Z) (neuralnet : Classifier)
    (train_data : dict) (extra_data : option dict) : t * dict :=
  let data := train_record now neuralnet train_data extra_data in
  (append_train job data, data).

(** [base_cols] of the loop body at index [i]; an index past the end of
    one of the per-label arrays raises. *)
Definition label_base_cols (now : Z) (neuralnet : Classifier) (test_set_id : value)
    (score : ScoreReport) (i : nat) : result dict :=
  p ← index (precision score) i;
  r ← index (recall score) i;
  f ← index (f1 score) i;
  l ← index (labels score) i;
  s ← index (support score) i;
  mret (list_to_map [
    ("timestamp", VTime now);
    ("classifier", VStr (class_name neuralnet));
    ("classifier_id", instance_id neuralnet);
    ("test_set", test_set_id);
    ("precision", p);
    ("recall", r);
    ("accuracy", accuracy score);
    ("f1", f);
    ("label", l);
    ("support", s);
    ("job_id", VInt 1) ] : dict).

(** The [for i, v in enumerate(score.labels)] loop: each pass binds
    [data] to the row of label [i]; the rows built are returned here only
    to show what the loop computes, the caller drops them. *)
Fixpoint label_rows (now : Z) (neuralnet : Classifier) (test_set_id : value)
    (score : ScoreReport) (hyper_parameters extra_data : dict)
    (idxs : list nat) : result (list dict) :=
  match idxs with
  | [] => mret []
  | i :: idxs =>
      base_cols ← label_base_cols now neuralnet test_set_id score i;
      let data := splat [base_cols; hyper_parameters; extra_data] in
      rest ← label_rows now neuralnet test_set_id score hyper_parameters extra_data idxs;
      mret (data :: rest)
  end.

Definition totals_base_cols (now : Z) (neuralnet : Classifier) (test_set_id : value)
    (score : ScoreReport) : dict :=
  let '(precision, recall, f1, support) := totals score in
  list_to_map [
    ("timestamp", VTime now);
    ("classifier", VStr (class_name neuralnet));
    ("classifier_id", instance_id neuralnet);
    ("test_set", test_set_id);
    ("precision", precision);
    ("recall", recall);
    ("accuracy", accuracy score);
    ("f1", f1);
    ("support", support);
    ("label", VStr "__totals__");
    ("job_id", VInt 1) ].

(** The record [add_to_prediction_log] appends when it gets that far. *)
Definition totals_record (now : Z) (neuralnet : Classifier) (test_set_id : value)
    (score : ScoreReport) (extra_data : option dict) : dict :=
  splat [totals_base_cols now neuralnet test_set_id score;
         get_hyperparameters neuralnet; or_empty extra_data].

(** [job.add_to_prediction_log(neuralnet, test_set_id, score, extra_data)]. *)
Definition add_to_prediction_log (job : t) (now : Z) (neuralnet : Classifier)
    (test_set_id : value) (score : ScoreReport) (extra_data : option dict)
    : result (t * dict) :=
  let extra_data' := or_empty extra_data in
  let hyper_parameters := get_hyperparameters neuralnet in
  _ ← label_rows now neuralnet test_set_id score hyper_parameters extra_data'
        (seq 0 (length (labels score)));
  let base_cols := totals_base_cols now neuralnet test_set_id score in
  let data := splat [base_cols; hyper_parameters; extra_data'] in
  mret (append_prediction job data, data).

End AnalyserJob.

(** ** State and exceptions

    A method that mutates objects and may raise is a function from the
    state before to the state after and the outcome.  The state after is
    kept when the call raises: what was mutated stays mutated. *)

Definition SE (S A : Type) : Type := S → S * result A.

#[global] Instance SE_ret {S} : MRet (SE S) := λ A a s, (s, Ok a).
#[global] Instance SE_bind {S} : MBind (SE S) := λ A B f m s,
  match m s with
  | (s', Ok a) => f a s'
  | (s', Raise e) => (s', Raise e)
  end.

Definition raise {S A} (e : exn) : SE S A := λ s, (s, Raise e).
Definition get {S} : SE S S := λ s, (s, Ok s).
Definition modify {S} (f : S → S) : SE S () := λ s, (f s, Ok ()).
Definition lift {S A} (r : result A) : SE S A := λ s, (s, r).

(** [for x in l: body(x)] *)
Fixpoint for_each {S A} (l : list A) (body : A → SE S ()) : SE S () :=
  match l with
  | [] => mret ()
  | x :: l => body x ≫= λ _, for_each l body
  end.

(** ** pandas.DataFrame, as far as this module uses it

    A frame is held as the columns it was built with, the columns
    [append] has added since, and the records appended, in order.  What
    pandas makes of a record once it is in the frame is not part of the
    model: in which order it puts the columns a record adds, what it
    stores in the cells of the keys a record lacks, to which dtype it
    casts a column.  [rows] are the records as they were given to
    [append]. *)

Record DataFrame := {
  columns : list string;       (* [columns=...] of the constructor, in order *)
  new_columns : gset string;   (* the columns added by [append] *)
  rows : list dict;
}.

(** [pd.DataFrame(columns=cols)] *)
Definition DataFrame_new (cols : list string) : DataFrame :=
  {| columns := cols; new_columns := ∅; rows := [] |}.

(** [df.append(item, ignore_index=True)] for a dict [item]: a new frame
    with one more row at the end; the keys of [item] that are not columns
    yet become columns. *)
Definition DataFrame_append (df : DataFrame) (item : dict) : DataFrame :=
  {| columns := columns df;
     new_columns := new_columns df ∪ (dom item ∖ list_to_set (columns df));
     rows := rows df ++ [item] |}.

Fixpoint endswith_slash (s : string) : bool :=
  match s with
  | EmptyString => false
  | String c EmptyString => bool_decide (c = "/"%char)
  | String _ s => endswith_slash s
  end.

(** [os.path.join(a, b)] for a relative [b]. *)
Definition path_join (a b : string) : string :=
  if bool_decide (a = "") || endswith_slash a then a ++ b
  else a ++ "/" ++ b.

(** ** concurrent.futures, as far as this module uses it *)

Inductive ExecutorClass :=
  | ProcessPool
  | ThreadPool.

(** An executor object: its class and the [max_workers] it was built with. *)
Record Executor := {
  executor_class : ExecutorClass;
  max_workers : option nat;
}.

Definition ProcessPoolExecutor (max_workers : option nat) : Executor :=
  {| executor_class := ProcessPool; max_workers := max_workers |}.

Definition ThreadPoolExecutor (max_workers : option nat) : Executor :=
  {| executor_class := ThreadPool; max_workers := max_workers |}.

(** [JobResult = namedtuple('JobResult', 'train_data prediction_data')] *)
Record JobResult := {
  train_data : list dict;
  prediction_data : list dict;
}.

(** A future of the worker pool.  Futures are compared by identity:
    [fut_id] is the rank of the future among those the executor made.
    [fut_result] is what [future.result()] gives once the job is over: the
    pair the unit of work returned, or the exception it raised, of
    whatever class (the pool keeps any [BaseException] the unit of work
    raises and [result()] raises it again).  Every job is taken to
    end. *)
Record Future := {
  fut_id : nat;
  fut_result : result (list dict * list dict);
}.

(** What the coordinator does to the outside, in order. *)
Inductive event :=
  | Print (s : string)
  | JobCompleted (r : JobResult)
  | ToCsv (file : string) (df : DataFrame).

(** Modelled from the spec: the classifier of [aibrite.ml.neuralnet],
    which is not part of this module.  An instance gives its class name,
    identifier and hyperparameters, its [labels], and
    - [train(callback)] calls [callback(instance, iteration_data)] once
      per training iteration ([train_iterations] holds
      [iteration_data._asdict()] of each call, in order) and then returns
      or raises ([train_raises]);
    - [predict(features)] returns a prediction result, of which the
      [predicted] array is used, or raises. *)
Record NeuralNet {ndarray : Type} := {
  classifier :> Classifier;
  nn_labels : list value;
  train_iterations : list dict;
  train_raises : option exn;
  predict : ndarray → result ndarray;
}.
Arguments NeuralNet ndarray : clear implicits.

(** ** class NeuralNetAnalyser *)

Module NeuralNetAnalyser.

Record t := {
  executor : Executor;
  worker_list : list Future;
  job_list : gmap string AnalyserJob.t;
  log_dir : string;
  prediction_log : DataFrame;
  train_log : DataFrame;
  train_options : dict;
  job_completed : option (JobResult → option exn);
  id : string;
  (* how many futures [executor] has made: the identity of the next one *)
  futures_made : nat;
}.

(** The user callback [job_completed(self, job_result)] is taken to
    observe: it returns, or raises the exception given. *)

Definition set_worker_list (self : t) (l : list Future) : t :=
  {| executor := executor self; worker_list := l; job_list := job_list self;
     log_dir := log_dir self; prediction_log := prediction_log self;
     train_log := train_log self; train_options := train_options self;
     job_completed := job_completed self; id := id self;
     futures_made := futures_made self |}.

Definition set_job_list (self : t) (m : gmap string AnalyserJob.t) : t :=
  {| executor := executor self; worker_list := worker_list self; job_list := m;
     log_dir := log_dir self; prediction_log := prediction_log self;
     train_log := train_log self; train_options := train_options self;
     job_completed := job_completed self; id := id self;
     futures_made := futures_made self |}.

Definition set_prediction_log (self : t) (df : DataFrame) : t :=
  {| executor := executor self; worker_list := worker_list self;
     job_list := job_list self;
     log_dir := log_dir self; prediction_log := df;
     train_log := train_log self; train_options := train_options self;
     job_completed := job_completed self; id := id self;
     futures_made := futures_made self |}.

Definition set_train_log (self : t) (df : DataFrame) : t :=
  {| executor := executor self; worker_list := worker_list self;
     job_list := job_list self;
     log_dir := log_dir self; prediction_log := prediction_log self;
     train_log := df; train_options := train_options self;
     job_completed := job_completed self; id := id self;
     futures_made := futures_made self |}.

(** [_init_logs]: the two empty frames.  It also creates the directory
    [log_dir] when missing, which changes the file system only. *)
Definition _init_logs (self : t) : t :=
  let self := set_prediction_log self (DataFrame_new [
    "timestamp"; "classifier"; "classifier_id"; "test_set"; "label"; "f1";
    "precision"; "recall"; "accuracy"; "support"]) in
  set_train_log self (DataFrame_new [
    "timestamp"; "classifier"; "classifier_id"; "cost"; "epoch";
    "current_minibatch_index"]).

(** [NeuralNetAnalyser(log_dir, max_workers, executor, train_options,
    job_completed)].  [stamp] is [datetime.now().strftime(...)], [uuid]
    the string of the uuid4 drawn; [log_dir = None], [train_options = None]
    and [job_completed = None] are the arguments left out or passed as
    [None].  The module-level [analyser_cache] gets the new object under
    its id. *)
Definition __init__ (analyser_cache : gmap string t) (stamp uuid : string)
    (log_dir : option string) (max_workers : option nat)
    (executor : option nat → Executor) (train_options : option dict)
    (job_completed : option (JobResult → option exn)) : t * gmap string t :=
  let self := {|
    executor := executor None;
    worker_list := [];
    job_list := ∅;
    log_dir := path_join (default "./" log_dir) stamp;
    prediction_log := DataFrame_new [];
    train_log := DataFrame_new [];
    train_options := default {[ "foo" := VInt 12 ]} train_options;
    job_completed := job_completed;
    id := uuid;
    futures_made := 0 |} in
  let self := _init_logs self in
  (self, <[id self := self]> analyser_cache).

(** The coordinating process: the analyser object and what it has
    printed, called back and written so far. *)
Record Proc := {
  this : t;
  out : list event;
}.

Definition update (f : t → t) : SE Proc () :=
  modify (λ p, {| this := f (this p); out := out p |}).

Definition emit (e : event) : SE Proc () :=
  modify (λ p, {| this := this p; out := out p ++ [e] |}).

Definition print (s : string) : SE Proc () := emit (Print s).

Section Coordinator.

(** [df.to_csv(file)]: [Some e] when the write raises [e]. *)
Variable to_csv : string → DataFrame → option exn.

Definition DataFrame_to_csv (df : DataFrame) (file : string) : SE Proc () :=
  match to_csv file df with
  | Some e => raise e
  | None => emit (ToCsv file df)
  end.

Definition save_logs : SE Proc () :=
  p ← get;
  let self := this p in
  let pred_file := path_join (log_dir self) "pred.csv" in
  let train_file := path_join (log_dir self) "train.csv" in
  DataFrame_to_csv (prediction_log self) pred_file;;
  DataFrame_to_csv (train_log self) train_file.

Definition _append_job_data (train_data prediction_data : list dict) : SE Proc () :=
  for_each prediction_data (λ item,
    update (λ self, set_prediction_log self (DataFrame_append (prediction_log self) item)));;
  for_each train_data (λ item,
    update (λ self, set_train_log self (DataFrame_append (train_log self) item))).

(** [l.remove(future)]: drops the first entry that is [future];
    [None] when there is none. *)
Fixpoint list_remove (future : Future) (l : list Future) : option (list Future) :=
  match l with
  | [] => None
  | f :: l =>
      if decide (fut_id f = fut_id future) then Some l
      else cons f <$> list_remove future l
  end.

Definition worker_list_remove (future : Future) : SE Proc () :=
  p ← get;
  match list_remove future (worker_list (this p)) with
  | Some l => update (λ self, set_worker_list self l)
  | None => raise (ValueError "list.remove(x): x not in list")
  end.

(** [self.job_completed(self, JobResult(...))] *)
Definition call_job_completed (cb : JobResult → option exn) (r : JobResult) : SE Proc () :=
  emit (JobCompleted r);;
  match cb r with
  | Some e => raise e
  | None => mret ()
  end.

(** The body of the loop of [start] for one future.  [except Exception]
    handles the exceptions that are instances of [Exception]; any other
    leaves the loop and [start]. *)
Definition on_future (future : Future) : SE Proc () :=
  match fut_result future with
  | Raise exc =>
      if is_Exception exc then
        print "ERROR";;
        print (exc_str exc);;
        worker_list_remove future
      else raise exc
  | Ok (train_data, prediction_data) =>
      _append_job_data train_data prediction_data;;
      p ← get;
      match job_completed (this p) with
      | Some cb =>
          call_job_completed cb
            {| train_data := train_data; prediction_data := prediction_data |}
      | None => mret ()
      end;;
      save_logs
  end.

(** [concurrent.futures.as_completed(self.worker_list)] yields the
    futures of the list at the time of the call, each once, in the order
    in which they finish. *)
Definition _as_completed (self : t) (order : list Future) : Prop :=
  order ≡ₚ worker_list self.

(** [start()], when [_as_completed()] yields [order]. *)
Definition start (order : list Future) : SE Proc () :=
  for_each order on_future.

End Coordinator.

(** The worker running one job: the job object, and how many times the
    clock was read. *)
Record Worker := {
  job : AnalyserJob.t;
  clock_reads : nat;
}.

Section Runner.

Context {ndarray : Type}.

(** [NeuralNet.score_report(y, predicted, labels=...)], of
    [aibrite.ml.neuralnet]. *)
Variable score_report : ndarray → ndarray → list value → result ScoreReport.

(** [clock n] is what the [n]-th [datetime.datetime.now()] of the
    worker gives. *)
Variable clock : nat → Z.

Definition now : SE Worker Z := λ w,
  ({| job := job w; clock_reads := S (clock_reads w) |}, Ok (clock (clock_reads w))).

Definition set_status (s : Status) : SE Worker () :=
  modify (λ w, {| job := AnalyserJob.set_status (job w) s; clock_reads := clock_reads w |}).

(** [job.add_to_train_log(neuralnet, train_data._asdict())] *)
Definition job_add_to_train_log (neuralnet : NeuralNet ndarray) (train_data : dict)
    : SE Worker () :=
  t ← now;
  modify (λ w, {| job := (AnalyserJob.add_to_train_log (job w) t neuralnet train_data None).1;
                  clock_reads := clock_reads w |}).

(** [job.add_to_prediction_log(neuralnet, test_set_id, score)] *)
Definition job_add_to_prediction_log (neuralnet : NeuralNet ndarray)
    (test_set_id : value) (score : ScoreReport) : SE Worker () :=
  t ← now;
  w ← get;
  '(job', _) ← lift (AnalyserJob.add_to_prediction_log (job w) t neuralnet test_set_id score None);
  modify (λ w, {| job := job'; clock_reads := clock_reads w |}).

(** [neuralnet.train(callback)] *)
Definition train (neuralnet : NeuralNet ndarray)
    (callback : NeuralNet ndarray → dict → SE Worker ()) : SE Worker () :=
  for_each (train_iterations neuralnet) (callback neuralnet);;
  match train_raises neuralnet with
  | Some e => raise e
  | None => mret ()
  end.

(** [_start_job] from the construction of the classifier on.
    [test_sets] is [test_sets.items()]. *)
Definition run_job (neuralnet_class : ndarray → ndarray → dict → result (NeuralNet ndarray))
    (train_set : ndarray * ndarray) (test_sets : list (value * (ndarray * ndarray)))
    (kvargs : dict) : SE Worker (list dict * list dict) :=
  let '(train_x, train_y) := train_set in
  neuralnet ← lift (neuralnet_class train_x train_y kvargs);
  set_status training_started;;
  train neuralnet job_add_to_train_log;;
  set_status prediction_started;;
  for_each test_sets (λ '(test_set_id, test_set),
    let '(test_set_x, test_set_y) := test_set in
    predicted ← lift (predict neuralnet test_set_x);
    score ← lift (score_report test_set_y predicted (nn_labels neuralnet));
    job_add_to_prediction_log neuralnet test_set_id score);;
  set_status completed;;
  w ← get;
  mret (AnalyserJob._train_data (job w), AnalyserJob._prediction_data (job w)).

(** [_start_job(analyser_id, neuralnet_class, train_set, test_sets,
    **kvargs)], run where the module-level [analyser_cache] is the
    mapping given and [uuid] the uuid4 drawn for the job: the cache
    afterwards and the outcome.  The job object is entered in
    [analyser.job_list] before the run and is the same object
    afterwards, so the entry shows the job as the run left it. *)
Definition _start_job (analyser_cache : gmap string t) (uuid : string)
    (analyser_id : string)
    (neuralnet_class : ndarray → ndarray → dict → result (NeuralNet ndarray))
    (train_set : ndarray * ndarray) (test_sets : list (value * (ndarray * ndarray)))
    (kvargs : dict) : gmap string t * result (list dict * list dict) :=
  match analyser_cache !! analyser_id with
  | None => (analyser_cache, Raise (KeyError analyser_id))
  | Some analyser =>
      let job0 := AnalyserJob.__init__ uuid in
      let '(w, r) := run_job neuralnet_class train_set test_sets kvargs
                       {| job := job0; clock_reads := 0 |} in
      let analyser :=
        set_job_list analyser (<[AnalyserJob.id job0 := job w]> (job_list analyser)) in
      (<[analyser_id := analyser]> analyser_cache, r)
  end.

(** [submit(neuralnet_class, train_set, test_sets, **kvargs)].  The pool
    is taken to accept the job: a pool that is broken or shut down
    raises instead, and this module never shuts its pool down.  The pool
    runs [_start_job] in a worker, where [analyser_cache] is the
    worker's [worker_cache], and the future made holds the outcome.  The
    worker of a process pool has a cache of its own, and what it enters
    there stays there.  The worker of a thread pool shares the module's
    cache, in which [self] is found under its id: what [_start_job]
    enters in the job list of that entry it enters in [self.job_list]. *)
Definition submit (self : t) (worker_cache : gmap string t) (uuid : string)
    (neuralnet_class : ndarray → ndarray → dict → result (NeuralNet ndarray))
    (train_set : ndarray * ndarray) (test_sets : list (value * (ndarray * ndarray)))
    (kvargs : dict) : t :=
  let ran := _start_job worker_cache uuid (id self) neuralnet_class
               train_set test_sets kvargs in
  let item := {| fut_id := futures_made self; fut_result := ran.2 |} in
  let entered :=
    match executor_class (executor self) with
    | ProcessPool => job_list self
    | ThreadPool =>
        match ran.1 !! id self with
        | Some analyser => job_list analyser
        | None => job_list self
        end
    end in
  let self := set_worker_list self (worker_list self ++ [item]) in
  {| executor := executor self; worker_list := worker_list self;
     job_list := entered;
     log_dir := log_dir self; prediction_log := prediction_log self;
     train_log := train_log self; train_options := train_options self;
     job_completed := job_completed self; id := id self;
     futures_made := S (futures_made self) |}.

End Runner.

End NeuralNetAnalyser.

(** ** Several threads inside one job

    [add_to_train_log] and [add_to_prediction_log] build their record
    from their arguments alone and then run
    [with self._trainlock: self._train_data.append(data)] (resp. with
    [_predlock] and [_prediction_data]).  A call whose record is built
    goes through three steps: acquire the lock (possible only when the
    lock is free), append, release.  Threads interleave at the level of
    these steps. *)

Module Threads.

Inductive Log :=
  | TrainLog
  | PredLog.

#[global] Instance Log_eq_dec : EqDecision Log.
Proof. solve_decision. Defined.

Inductive PC :=
  | AtAcquire
  | AtAppend
  | AtRelease
  | Returned.

#[global] Instance PC_eq_dec : EqDecision PC.
Proof. solve_decision. Defined.

(** A call in progress: which method, the record it built, where it is. *)
Record Call := {
  log : Log;
  data : dict;
  pc : PC;
}.

(** The job object with its two [threading.Lock]s ([true]: locked) and
    the calls made on it by as many threads. *)
Record Config := {
  job : AnalyserJob.t;
  _trainlock : bool;
  _predlock : bool;
  calls : list Call;
}.

Definition locked (L : Log) (c : Config) : bool :=
  match L with
  | TrainLog => _trainlock c
  | PredLog => _predlock c
  end.

Definition set_lock (L : Log) (b : bool) (c : Config) : Config :=
  match L with
  | TrainLog => {| job := job c; _trainlock := b; _predlock := _predlock c; calls := calls c |}
  | PredLog => {| job := job c; _trainlock := _trainlock c; _predlock := b; calls := calls c |}
  end.

Definition sequence (L : Log) (j : AnalyserJob.t) : list dict :=
  match L with
  | TrainLog => AnalyserJob._train_data j
  | PredLog => AnalyserJob._prediction_data j
  end.

Definition append (L : Log) (j : AnalyserJob.t) (d : dict) : AnalyserJob.t :=
  match L with
  | TrainLog => AnalyserJob.append_train j d
  | PredLog => AnalyserJob.append_prediction j d
  end.

Definition move (i : nat) (t : Call) (to : PC) (c : Config) : Config :=
  {| job := job c; _trainlock := _trainlock c; _predlock := _predlock c;
     calls := <[i := {| log := log t; data := data t; pc := to |}]> (calls c) |}.

(** Thread [i] is scheduled for one step.  A thread waiting for a held
    lock, or one that has returned, leaves everything as it is. *)
Definition step (i : nat) (c : Config) : Config :=
  match calls c !! i with
  | None => c
  | Some t =>
      match pc t with
      | AtAcquire =>
          if locked (log t) c then c
          else set_lock (log t) true (move i t AtAppend c)
      | AtAppend =>
          let c := move i t AtRelease c in
          {| job := append (log t) (job c) (data t);
             _trainlock := _trainlock c; _predlock := _predlock c; calls := calls c |}
      | AtRelease => set_lock (log t) false (move i t Returned c)
      | Returned => c
      end
  end.

(** The threads run as the scheduler [schedule] picks them. *)
Definition run (schedule : list nat) (c : Config) : Config :=
  foldl (λ c i, step i c) c schedule.

(** The job with free locks and one thread per call, none started. *)
Definition spawn (j : AnalyserJob.t) (todo : list (Log * dict)) : Config :=
  {| job := j; _trainlock := false; _predlock := false;
     calls := (λ '(L, d), {| log := L; data := d; pc := AtAcquire |}) <$> todo |}.

Definition all_returned (c : Config) : Prop :=
  Forall (λ t, pc t = Returned) (calls c).

(** The calls of [L] inside the [with] block. *)
Definition inside (L : Log) (c : Config) : list Call :=
  filter (λ t, log t = L ∧ (pc t = AtAppend ∨ pc t = AtRelease)) (calls c).

(** The records the calls were made with, for log [L]. *)
Definition records (L : Log) (todo : list (Log * dict)) : list dict :=
  snd <$> filter (λ x, x.1 = L) todo.

End Threads.

(** ** Vocabulary of the statements *)

Import NeuralNetAnalyser.

Open Scope list_scope.

(** The claim that the record of [add_to_train_log] is merged in the
    order "base columns, hyperparameters, iteration data, extra", the
    later source winning: the record that order would give. *)
Definition train_record_listed_order (now : Z) (neuralnet : Classifier)
    (train_data : dict) (extra_data : option dict) : dict :=
  splat [AnalyserJob.train_base_cols now neuralnet; get_hyperparameters neuralnet;
         train_data; AnalyserJob.or_empty extra_data].

(** First of the two options that is set. *)
Definition or_else {A} (x y : option A) : option A :=
  match x with
  | Some a => Some a
  | None => y
  end.

(** The per-label arrays of a report reach as far as its labels. *)
Definition per_label_arrays (score : ScoreReport) : Prop :=
  (length (labels score) ≤ length (precision score))%nat ∧
  (length (labels score) ≤ length (recall score))%nat ∧
  (length (labels score) ≤ length (f1 score))%nat ∧
  (length (labels score) ≤ length (support score))%nat.

(** No two futures of the list are the same future. *)
Definition distinct_futures (self : t) : Prop :=
  NoDup (fut_id <$> worker_list self).

Definition succeeded (future : Future) : bool := is_ok (fut_result future).

Definition train_rows_of (future : Future) : list dict :=
  match fut_result future with
  | Ok (train_data, _) => train_data
  | Raise _ => []
  end.

Definition prediction_rows_of (future : Future) : list dict :=
  match fut_result future with
  | Ok (_, prediction_data) => prediction_data
  | Raise _ => []
  end.



(** The future failed with an exception that [except Exception] does
    not catch. *)
Definition escapes (future : Future) : bool :=
  match fut_result future with
  | Ok _ => false
  | Raise exc => negb (is_Exception exc)
  end.

(** Every failure among the futures is an instance of [Exception]. *)
Definition failures_caught (order : list Future) : Prop :=
  Forall (λ f, escapes f = false) order.

(** The futures before the first one whose failure is not caught:
    those the loop of [start] gets through. *)
Fixpoint handled (order : list Future) : list Future :=
  match order with
  | [] => []
  | f :: order => if escapes f then [] else f :: handled order
  end.

(** The exception of the first future whose failure is not caught. *)
Fixpoint first_escape (order : list Future) : option exn :=
  match order with
  | [] => None
  | f :: order =>
      match fut_result f with
      | Raise exc => if is_Exception exc then first_escape order else Some exc
      | Ok _ => first_escape order
      end
  end.

(** What [start] prints for a future whose failure it catches. *)
Definition report_of (future : Future) : list event :=
  match fut_result future with
  | Ok _ => []
  | Raise exc => [Print "ERROR"; Print (exc_str exc)]
  end.

Definition is_Print (e : event) : bool :=
  match e with
  | Print _ => true
  | _ => false
  end.

Definition same_logs (a b : t) : Prop :=
  prediction_log a = prediction_log b ∧ train_log a = train_log b.

(** [items] appended to a frame one by one. *)
Definition append_rows (df : DataFrame) (items : list dict) : DataFrame :=
  foldl DataFrame_append df items.

(** The analyser once the records of a job are in its logs. *)
Definition merged (train_data prediction_data : list dict) (self : t) : t :=
  set_train_log
    (set_prediction_log self (append_rows (prediction_log self) prediction_data))
    (append_rows (train_log self) train_data).

(** The two processes have the same logs, callback and log directory. *)
Definition alike (p q : Proc) : Prop :=
  same_logs (this p) (this q) ∧
  job_completed (this p) = job_completed (this q) ∧
  log_dir (this p) = log_dir (this q).

(** All of [order] are futures of the worker list, each once. *)
Definition pending (order : list Future) (self : t) : Prop :=
  NoDup (fut_id <$> order) ∧
  ∀ future, future ∈ order → fut_id future ∈ fut_id <$> worker_list self.

(** The records of the calls of [L] that are past their append. *)
Definition appended (L : Threads.Log) (c : Threads.Config) : list dict :=
  Threads.data <$>
    filter (λ t, Threads.log t = L ∧
                 (Threads.pc t = Threads.AtRelease ∨ Threads.pc t = Threads.Returned))
      (Threads.calls c).

(** How many steps a call still has to take. *)
Definition steps_left (t : Threads.Call) : nat :=
  match Threads.pc t with
  | Threads.AtAcquire => 3
  | Threads.AtAppend => 2
  | Threads.AtRelease => 1
  | Threads.Returned => 0
  end.

Definition remaining (c : Threads.Config) : nat :=
  sum_list_with steps_left (Threads.calls c).

(** What holds of every configuration the threads can reach from
    [Threads.spawn j todo]: the calls are those made; a lock is held
    exactly when one call is inside its [with] block; each sequence is
    what it was at the start followed by the records appended so far, in
    some order; nothing else of the job has changed. *)
Definition consistent (j : AnalyserJob.t) (todo : list (Threads.Log * dict))
    (c : Threads.Config) : Prop :=
  (λ t, (Threads.log t, Threads.data t)) <$> Threads.calls c = todo ∧
  (∀ L, length (Threads.inside L c) = if Threads.locked L c then 1%nat else 0%nat) ∧
  (∀ L, ∃ l, Threads.sequence L (Threads.job c) = Threads.sequence L j ++ l ∧
             l ≡ₚ appended L c) ∧
  AnalyserJob.status (Threads.job c) = AnalyserJob.status j ∧
  AnalyserJob.id (Threads.job c) = AnalyserJob.id j.

(** Neither the csv writer nor the user callback raises. *)
Definition writes_succeed (to_csv : string → DataFrame → option exn) : Prop :=
  ∀ file df, to_csv file df = None.

Definition callback_returns (self : t) : Prop :=
  ∀ cb r, job_completed self = Some cb → cb r = None.

(** The score report [_start_job] computes for a test set: [predict]
    on its features, then [score_report] against its labels. *)
Definition score_of {ndarray : Type}
    (score_report : ndarray → ndarray → list value → result ScoreReport)
    (neuralnet : NeuralNet ndarray) (test_set : ndarray * ndarray) : result ScoreReport :=
  predicted ← predict neuralnet test_set.1;
  score_report test_set.2 predicted (nn_labels neuralnet).

(** [r] is the training record of iteration data [it], at some clock
    reading. *)
Definition is_train_record {ndarray : Type} (neuralnet : NeuralNet ndarray)
    (r it : dict) : Prop :=
  ∃ now, r = AnalyserJob.train_record now neuralnet it None.

(** [r] is the totals record of test set [ts], at some clock reading. *)
Definition is_totals_record {ndarray : Type}
    (score_report : ndarray → ndarray → list value → result ScoreReport)
    (neuralnet : NeuralNet ndarray) (r : dict)
    (ts : value * (ndarray * ndarray)) : Prop :=
  ∃ now score,
    score_of score_report neuralnet ts.2 = Ok score ∧ per_label_arrays score ∧
    r = AnalyserJob.totals_record now neuralnet ts.1 score None.

(** The body of the loop of [_start_job] over the test sets. *)
Definition score_and_log {ndarray : Type}
    (score_report : ndarray → ndarray → list value → result ScoreReport)
    (clock : nat → Z) (neuralnet : NeuralNet ndarray)
    (item : value * (ndarray * ndarray)) : SE Worker () :=
  let '(test_set_id, test_set) := item in
  let '(test_set_x, test_set_y) := test_set in
  predicted ← lift (predict neuralnet test_set_x);
  score ← lift (score_report test_set_y predicted (nn_labels neuralnet));
  job_add_to_prediction_log clock neuralnet test_set_id score.

(** The job with [records] appended to a sequence one by one. *)
Definition with_train (job : AnalyserJob.t) (records : list dict) : AnalyserJob.t :=
  foldl AnalyserJob.append_train job records.

Definition with_predictions (job : AnalyserJob.t) (records : list dict) : AnalyserJob.t :=
  foldl AnalyserJob.append_prediction job records.

(** The worker's cache once [job] is entered in the job list of the
    analyser [analyser_id]. *)
Definition registered (analyser_cache : gmap string t) (analyser_id : string)
    (analyser : t) (job : AnalyserJob.t) : gmap string t :=
  <[analyser_id :=
      set_job_list analyser (<[AnalyserJob.id job := job]> (job_list analyser))]>
    analyser_cache.

(** The futures of the analyser are distinct and older than the next
    future the executor will make. *)
Definition futures_in_order (self : t) : Prop :=
  NoDup (fut_id <$> worker_list self) ∧
  Forall (λ f, (fut_id f < futures_made self)%nat) (worker_list self).

(** The files written, in order, with their contents. *)
Definition writes (o : list event) : list (string * DataFrame) :=
  omap (λ e, match e with ToCsv file df => Some (file, df) | _ => None end) o.

(** The batches the user callback was called with, in order. *)
Definition callbacks (o : list event) : list JobResult :=
  omap (λ e, match e with JobCompleted r => Some r | _ => None end) o.

(** The batch [start] hands to the callback for a future. *)
Definition batch_of (future : Future) : list JobResult :=
  match fut_result future with
  | Ok (td, pd) => [{| train_data := td; prediction_data := pd |}]
  | Raise _ => []
  end.

(** The two files [save_logs] writes for an analyser. *)
Definition saved_files (self : t) : list (string * DataFrame) :=
  [(path_join (log_dir self) "pred.csv", prediction_log self);
   (path_join (log_dir self) "train.csv", train_log self)].

(** ** Sample inputs *)

Module Sample.

Definition net : Classifier := {|
  class_name := "NeuralNet";
  instance_id := VStr "nn-1";
  get_hyperparameters := {[ "learning_rate" := VFloat 1 (-7) ]};
|}.

(** A classifier whose hyperparameters have an [epoch] entry. *)
Definition net_epoch : Classifier := {|
  class_name := "NeuralNet";
  instance_id := VStr "nn-2";
  get_hyperparameters := {[ "epoch" := VInt 100 ]};
|}.

(** A classifier whose hyperparameters have a [label] entry. *)
Definition net_label : Classifier := {|
  class_name := "NeuralNet";
  instance_id := VStr "nn-3";
  get_hyperparameters := {[ "label" := VStr "smoothing" ]};
|}.

Definition iteration (epoch : Z) : dict :=
  list_to_map [("cost", VFloat 3 (-2)); ("epoch", VInt epoch);
               ("current_minibatch_index", VInt 0)].

Definition report : ScoreReport := {|
  labels := [VInt 0; VInt 1];
  precision := [VFloat 3 (-2); VFloat 1 (-1)];
  recall := [VFloat 1 (-1); VFloat 3 (-2)];
  f1 := [VFloat 5 (-3); VFloat 5 (-3)];
  support := [VInt 10; VInt 12];
  accuracy := VFloat 5 (-3);
  totals := (VFloat 5 (-3), VFloat 5 (-3), VFloat 5 (-3), VInt 22);
|}.

Definition job : AnalyserJob.t := AnalyserJob.__init__ "job-a".

(** Arrays are not looked into by this module. *)
Definition ndarray : Type := list nat.

Definition score_report (y predicted : ndarray) (labels : list value) : result ScoreReport :=
  Ok report.

Definition clock (n : nat) : Z := (1000 + Z.of_nat n)%Z.

Definition to_csv (file : string) (df : DataFrame) : option exn := None.

(** Three training iterations, every prediction succeeds. *)
Definition good_net (c : Classifier) : NeuralNet ndarray := {|
  classifier := c;
  nn_labels := [VInt 0; VInt 1];
  train_iterations := [iteration 0; iteration 1; iteration 2];
  train_raises := None;
  predict := λ x, Ok x;
|}.

(** Two training iterations, then every prediction raises. *)
Definition bad_net : NeuralNet ndarray := {|
  classifier := net;
  nn_labels := [VInt 0; VInt 1];
  train_iterations := [iteration 0; iteration 1];
  train_raises := None;
  predict := λ x, Raise (ValueError "shapes not aligned");
|}.

Definition good_class (x y : ndarray) (kvargs : dict) : result (NeuralNet ndarray) :=
  Ok (good_net net).

Definition label_class (x y : ndarray) (kvargs : dict) : result (NeuralNet ndarray) :=
  Ok (good_net net_label).

Definition bad_class (x y : ndarray) (kvargs : dict) : result (NeuralNet ndarray) :=
  Ok bad_net.

(** A class whose constructor raises. *)
Definition failing_class (x y : ndarray) (kvargs : dict) : result (NeuralNet ndarray) :=
  Raise (ValueError "bad layer sizes").

(** One training iteration, then the training leaves through
    [sys.exit(1)]. *)
Definition exiting_net : NeuralNet ndarray := {|
  classifier := net;
  nn_labels := [VInt 0; VInt 1];
  train_iterations := [iteration 0];
  train_raises := Some (BaseException "SystemExit" "1");
  predict := λ x, Ok x;
|}.

Definition exiting_class (x y : ndarray) (kvargs : dict) : result (NeuralNet ndarray) :=
  Ok exiting_net.

Definition train_set : ndarray * ndarray := ([1; 2; 3], [0; 1; 0]).

Definition test_sets : list (value * (ndarray * ndarray)) :=
  [(VStr "dev", ([4; 5], [1; 0])); (VStr "test", ([6], [1]))].

(** A new analyser and the module-level cache after its construction. *)
Definition analyser0 : t * gmap string t :=
  __init__ ∅ "2018-01-01-00-00-00-000000" "analyser-1" None (Some 4)
    ProcessPoolExecutor None None.

(** [submit] of a job of class [cls], in a worker that sees the cache
    as it is after construction. *)
Definition submit_class (self : t) (uuid : string)
    (cls : ndarray → ndarray → dict → result (NeuralNet ndarray)) : t :=
  submit score_report clock self analyser0.2 uuid cls train_set test_sets ∅.

(** One job that succeeds, and its future. *)
Definition one_job : t := submit_class analyser0.1 "job-1" good_class.

Definition future1 : Future := {|
  fut_id := 0;
  fut_result := (_start_job score_report clock analyser0.2 "job-1" "analyser-1"
                   good_class train_set test_sets ∅).2 |}.

(** Three jobs: the second fails after two training iterations. *)
Definition three_jobs : t :=
  submit_class (submit_class (submit_class analyser0.1 "job-1" good_class)
    "job-2" bad_class) "job-3" good_class.

(** Two jobs: the first succeeds, the second ends in [SystemExit]. *)
Definition exit_jobs : t :=
  submit_class (submit_class analyser0.1 "job-1" good_class) "job-2" exiting_class.

Definition proc (self : t) : Proc := {| this := self; out := [] |}.

(** A writer that raises on every file. *)
Definition full_disk (file : string) (df : DataFrame) : option exn :=
  Some (Exception "OSError" "No space left on device").

(** An analyser with a callback that returns, and two jobs of which the
    second fails. *)
Definition watched : t :=
  let new := __init__ ∅ "2018-01-01-00-00-00-000000" "analyser-2" None None
               ProcessPoolExecutor None (Some (λ _, None)) in
  submit score_report clock
    (submit score_report clock new.1 new.2 "job-1" good_class train_set test_sets ∅)
    new.2 "job-2" bad_class train_set test_sets ∅.

End Sample.

(** * Properties *)

(** ** Dict displays *)

Section Splat.

Implicit Types (a b c d : dict) (k : string).

Lemma lookup_union_or_else a b k :
  (a ∪ b) !! k = or_else (a !! k) (b !! k).
Proof.
  rewrite lookup_union. by destruct (a !! k), (b !! k).
Qed.

Lemma lookup_splat3 a b c k :
  splat [a; b; c] !! k = or_else (c !! k) (or_else (b !! k) (a !! k)).
Proof.
  unfold splat; simpl.
  rewrite !lookup_union_or_else, lookup_empty.
  by destruct (c !! k), (b !! k), (a !! k).
Qed.

Lemma lookup_splat4 a b c d k :
  splat [a; b; c; d] !! k =
    or_else (d !! k) (or_else (c !! k) (or_else (b !! k) (a !! k))).
Proof.
  unfold splat; simpl.
  rewrite !lookup_union_or_else, lookup_empty.
  by destruct (d !! k), (c !! k), (b !! k), (a !! k).
Qed.

End Splat.

(** ** Records of a job *)

Section JobRecords.

Import AnalyserJob.

Variables (now : Z) (neuralnet : Classifier).

Lemma index_lt (l : list value) (i : nat) :
  (i < length l)%nat → ∃ v, index l i = Ok v.
Proof.
  intros Hi. unfold index.
  destruct (lookup_lt_is_Some_2 l i Hi) as [v ->]. by exists v.
Qed.

Lemma label_rows_ok test_set_id score hyper extra idxs :
  per_label_arrays score →
  Forall (λ i, (i < length (labels score))%nat) idxs →
  ∃ label_data,
    label_rows now neuralnet test_set_id score hyper extra idxs = Ok label_data ∧
    length label_data = length idxs.
Proof.
  intros (Hp & Hr & Hf & Hs). induction 1 as [|i idxs Hi _ IH]; simpl.
  - by exists [].
  - destruct IH as (rest & -> & Hlen).
    unfold label_base_cols.
    destruct (index_lt (precision score) i) as [p ->]; [lia|].
    destruct (index_lt (recall score) i) as [r ->]; [lia|].
    destruct (index_lt (f1 score) i) as [f ->]; [lia|].
    destruct (index_lt (labels score) i) as [l ->]; [lia|].
    destruct (index_lt (support score) i) as [s ->]; [lia|].
    simpl. eexists. split; [reflexivity|]. simpl. by rewrite Hlen.
Qed.

Lemma add_to_prediction_log_ok job test_set_id score extra_data :
  per_label_arrays score →
  add_to_prediction_log job now neuralnet test_set_id score extra_data =
    Ok (append_prediction job (totals_record now neuralnet test_set_id score extra_data),
        totals_record now neuralnet test_set_id score extra_data).
Proof.
  intros Hscore. unfold add_to_prediction_log.
  destruct (label_rows_ok test_set_id score (get_hyperparameters neuralnet)
              (or_empty extra_data) (seq 0 (length (labels score))) Hscore)
    as (label_data & -> & _); [|done].
  apply Forall_forall. intros i Hi. apply elem_of_seq in Hi. lia.
Qed.

Lemma add_to_prediction_log_inv job test_set_id score extra_data job' data :
  add_to_prediction_log job now neuralnet test_set_id score extra_data = Ok (job', data) →
  data = totals_record now neuralnet test_set_id score extra_data ∧
  job' = append_prediction job data.
Proof.
  unfold add_to_prediction_log, totals_record.
  destruct (label_rows _ _ _ _ _ _ _); simpl; [|done].
  intros [= <- <-]. done.
Qed.

Lemma totals_base_cols_lookup test_set_id score :
  let '(p, r, f, s) := totals score in
  let base_cols := totals_base_cols now neuralnet test_set_id score in
  base_cols !! "label" = Some (VStr "__totals__") ∧
  base_cols !! "precision" = Some p ∧
  base_cols !! "recall" = Some r ∧
  base_cols !! "f1" = Some f ∧
  base_cols !! "support" = Some s ∧
  base_cols !! "accuracy" = Some (accuracy score) ∧
  base_cols !! "job_id" = Some (VInt 1).
Proof.
  unfold totals_base_cols.
  destruct (totals score) as [[[p r] f] s]. simpl.
  repeat split; by simplify_map_eq.
Qed.

End JobRecords.

(** C5, as stated, fails: with iteration data and hyperparameters that
    both have an [epoch] entry, the record of [add_to_train_log] carries
    the hyperparameter (100), not the iteration's value (3), and so is not
    the record that "iteration data over hyperparameters" gives. *)
Lemma add_to_train_log_not_listed_order :
  let train_data := Sample.iteration 3 in
  let data := (AnalyserJob.add_to_train_log Sample.job 1000 Sample.net_epoch
                 train_data None).2 in
  train_data !! "epoch" = Some (VInt 3) ∧
  get_hyperparameters Sample.net_epoch !! "epoch" = Some (VInt 100) ∧
  data !! "epoch" = Some (VInt 100) ∧
  data ≠ train_record_listed_order 1000 Sample.net_epoch train_data None.
Proof.
  split; [vm_compute; reflexivity|].
  split; [vm_compute; reflexivity|].
  split; [vm_compute; reflexivity|].
  intros H. apply (f_equal (λ m : dict, m !! "epoch")) in H.
  vm_compute in H. discriminate H.
Qed.

(** X1 (C5, amended): [add_to_train_log] appends one record to the job's
    training sequence, leaves the prediction sequence alone and returns
    the record appended; the record merges base columns, iteration data,
    hyperparameters and extra mapping, and on a key collision extra wins
    over hyperparameters, hyperparameters over iteration data, iteration
    data over base columns. *)
Theorem add_to_train_log_merge_order (job : AnalyserJob.t) (now : Z)
    (neuralnet : Classifier) (train_data : dict) (extra_data : option dict) :
  let '(job', data) :=
    AnalyserJob.add_to_train_log job now neuralnet train_data extra_data in
  AnalyserJob._train_data job' = AnalyserJob._train_data job ++ [data] ∧
  AnalyserJob._prediction_data job' = AnalyserJob._prediction_data job ∧
  ∀ k, data !! k =
    or_else (AnalyserJob.or_empty extra_data !! k)
      (or_else (get_hyperparameters neuralnet !! k)
         (or_else (train_data !! k)
            (AnalyserJob.train_base_cols now neuralnet !! k))).
Proof.
  simpl. split; [done|]. split; [done|]. intros k.
  unfold AnalyserJob.train_record. apply lookup_splat4.
Qed.

(** C4, as stated, fails: called with an extra mapping that has a
    [label] entry, [add_to_prediction_log] appends and returns a record
    whose label is that entry, not ["__totals__"]. *)
Lemma add_to_prediction_log_label_overridden :
  let extra_data := Some ({[ "label" := VStr "cat" ]} : dict) in
  let data := AnalyserJob.totals_record 1000 Sample.net (VStr "dev") Sample.report
                extra_data in
  AnalyserJob.add_to_prediction_log Sample.job 1000 Sample.net (VStr "dev")
    Sample.report extra_data = Ok (AnalyserJob.append_prediction Sample.job data, data) ∧
  AnalyserJob._prediction_data (AnalyserJob.append_prediction Sample.job data) = [data] ∧
  data !! "label" = Some (VStr "cat") ∧
  data !! "label" ≠ Some (VStr "__totals__").
Proof.
  intros extra_data data.
  split.
  { apply add_to_prediction_log_ok. unfold per_label_arrays. simpl. lia. }
  split; [reflexivity|].
  assert (Hlabel : data !! "label" = Some (VStr "cat")) by (vm_compute; reflexivity).
  split; [exact Hlabel|]. rewrite Hlabel. discriminate.
Qed.

(** X2 (C4, amended): for a score report whose per-label arrays reach as
    far as its labels, [add_to_prediction_log] appends exactly one record
    to the job's prediction sequence and returns it.  The per-label rows
    are computed, one per label, and none of them is kept.  The record
    appended is the totals row: its base columns have label
    ["__totals__"], the aggregate precision, recall, f1 and support and
    the scalar accuracy, overlaid with the hyperparameters and then the
    extra mapping; every base column these two do not set is in the
    record as it is. *)
Theorem add_to_prediction_log_appends_totals (job : AnalyserJob.t) (now : Z)
    (neuralnet : Classifier) (test_set_id : value) (score : ScoreReport)
    (extra_data : option dict) :
  per_label_arrays score →
  let data := AnalyserJob.totals_record now neuralnet test_set_id score extra_data in
  let base_cols := AnalyserJob.totals_base_cols now neuralnet test_set_id score in
  (∃ job',
    AnalyserJob.add_to_prediction_log job now neuralnet test_set_id score extra_data
      = Ok (job', data) ∧
    AnalyserJob._prediction_data job' = AnalyserJob._prediction_data job ++ [data] ∧
    AnalyserJob._train_data job' = AnalyserJob._train_data job) ∧
  (∃ label_data,
    AnalyserJob.label_rows now neuralnet test_set_id score
      (get_hyperparameters neuralnet) (AnalyserJob.or_empty extra_data)
      (seq 0 (length (labels score))) = Ok label_data ∧
    length label_data = length (labels score)) ∧
  (∀ k, data !! k =
     or_else (AnalyserJob.or_empty extra_data !! k)
       (or_else (get_hyperparameters neuralnet !! k) (base_cols !! k))) ∧
  (∀ k, AnalyserJob.or_empty extra_data !! k = None →
        get_hyperparameters neuralnet !! k = None →
        data !! k = base_cols !! k) ∧
  let '(p, r, f, s) := totals score in
  base_cols !! "label" = Some (VStr "__totals__") ∧
  base_cols !! "precision" = Some p ∧
  base_cols !! "recall" = Some r ∧
  base_cols !! "f1" = Some f ∧
  base_cols !! "support" = Some s ∧
  base_cols !! "accuracy" = Some (accuracy score).
Proof.
  intros Hscore data base_cols.
  assert (Hlookup : ∀ k, data !! k =
     or_else (AnalyserJob.or_empty extra_data !! k)
       (or_else (get_hyperparameters neuralnet !! k) (base_cols !! k))).
  { intros k. apply lookup_splat3. }
  split; [|split; [|split; [|split]]].
  - eexists. split; [by apply add_to_prediction_log_ok|]. done.
  - destruct (label_rows_ok now neuralnet test_set_id score
                (get_hyperparameters neuralnet) (AnalyserJob.or_empty extra_data)
                (seq 0 (length (labels score))) Hscore)
      as (label_data & Hrows & Hlen).
    + apply Forall_forall. intros i Hi. apply elem_of_seq in Hi. lia.
    + exists label_data. split; [done|]. by rewrite Hlen, length_seq.
  - done.
  - intros k He Hh. by rewrite Hlookup, He, Hh.
  - subst data base_cols.
    pose proof (totals_base_cols_lookup now neuralnet test_set_id score) as H.
    destruct (totals score) as [[[p r] f] s]. cbv zeta in H. tauto.
Qed.

Lemma add_to_prediction_log_appends_totals_witness :
  per_label_arrays Sample.report ∧
  ∃ job',
    AnalyserJob.add_to_prediction_log Sample.job 1000 Sample.net (VStr "dev")
      Sample.report None
      = Ok (job', AnalyserJob.totals_record 1000 Sample.net (VStr "dev") Sample.report None) ∧
    AnalyserJob._prediction_data job' =
      [AnalyserJob.totals_record 1000 Sample.net (VStr "dev") Sample.report None] ∧
    AnalyserJob._train_data job' = [].
Proof.
  assert (H : per_label_arrays Sample.report).
  { unfold per_label_arrays. simpl. lia. }
  split; [exact H|].
  exact (proj1 (add_to_prediction_log_appends_totals Sample.job 1000 Sample.net
                  (VStr "dev") Sample.report None H)).
Defined.

(** C10, as stated, fails: called with an extra mapping whose [job_id]
    entry is the job's own id, [add_to_prediction_log] appends a record
    whose [job_id] is the job's id and not 1. *)
Lemma add_to_prediction_log_job_id_overridden :
  let extra_data :=
    Some ({[ "job_id" := VStr (AnalyserJob.id Sample.job) ]} : dict) in
  let data := AnalyserJob.totals_record 1000 Sample.net (VStr "dev") Sample.report
                extra_data in
  AnalyserJob.add_to_prediction_log Sample.job 1000 Sample.net (VStr "dev")
    Sample.report extra_data = Ok (AnalyserJob.append_prediction Sample.job data, data) ∧
  AnalyserJob._prediction_data (AnalyserJob.append_prediction Sample.job data) = [data] ∧
  data !! "job_id" = Some (VStr (AnalyserJob.id Sample.job)) ∧
  data !! "job_id" ≠ Some (VInt 1).
Proof.
  intros extra_data data.
  split.
  { apply add_to_prediction_log_ok. unfold per_label_arrays. simpl. lia. }
  split; [reflexivity|].
  assert (Hid : data !! "job_id" = Some (VStr (AnalyserJob.id Sample.job)))
    by (vm_compute; reflexivity).
  split; [exact Hid|]. rewrite Hid. discriminate.
Qed.

(** X3 (C10, amended): the [job_id] base column of every record
    [add_to_prediction_log] appends is the constant 1, whatever the job;
    unless the hyperparameters or the extra mapping have a [job_id] entry
    of their own, the record's [job_id] is 1 and differs from the job's
    generated id; and the record does not depend on the job at all: the
    same call on any other job appends the same record. *)
Theorem add_to_prediction_log_job_id_constant (job : AnalyserJob.t) (now : Z)
    (neuralnet : Classifier) (test_set_id : value) (score : ScoreReport)
    (extra_data : option dict) (job' : AnalyserJob.t) (data : dict) :
  AnalyserJob.add_to_prediction_log job now neuralnet test_set_id score extra_data
    = Ok (job', data) →
  AnalyserJob.totals_base_cols now neuralnet test_set_id score !! "job_id"
    = Some (VInt 1) ∧
  (get_hyperparameters neuralnet !! "job_id" = None →
   AnalyserJob.or_empty extra_data !! "job_id" = None →
   data !! "job_id" = Some (VInt 1) ∧
   data !! "job_id" ≠ Some (VStr (AnalyserJob.id job))) ∧
  (∀ other : AnalyserJob.t, ∃ other',
     AnalyserJob.add_to_prediction_log other now neuralnet test_set_id score extra_data
       = Ok (other', data) ∧
     AnalyserJob._prediction_data other' = AnalyserJob._prediction_data other ++ [data]).
Proof.
  intros Hcall.
  assert (Hbase : AnalyserJob.totals_base_cols now neuralnet test_set_id score
                    !! "job_id" = Some (VInt 1)).
  { pose proof (totals_base_cols_lookup now neuralnet test_set_id score) as H.
    destruct (totals score) as [[[p r] f] s]. cbv zeta in H. tauto. }
  split; [done|]. split.
  - intros Hh He.
    apply add_to_prediction_log_inv in Hcall as [-> _].
    unfold AnalyserJob.totals_record.
    rewrite lookup_splat3, He, Hh, Hbase. by split.
  - intros other. revert Hcall. unfold AnalyserJob.add_to_prediction_log.
    destruct (AnalyserJob.label_rows _ _ _ _ _ _ _); simpl; [|done].
    intros [= <- <-]. eexists. split; reflexivity.
Qed.

Lemma add_to_prediction_log_job_id_constant_witness :
  AnalyserJob.add_to_prediction_log Sample.job 1000 Sample.net (VStr "dev")
    Sample.report None
    = Ok (AnalyserJob.append_prediction Sample.job
            (AnalyserJob.totals_record 1000 Sample.net (VStr "dev") Sample.report None),
          AnalyserJob.totals_record 1000 Sample.net (VStr "dev") Sample.report None) ∧
  AnalyserJob.totals_base_cols 1000 Sample.net (VStr "dev") Sample.report !! "job_id"
    = Some (VInt 1).
Proof.
  assert (H : AnalyserJob.add_to_prediction_log Sample.job 1000 Sample.net (VStr "dev")
    Sample.report None
    = Ok (AnalyserJob.append_prediction Sample.job
            (AnalyserJob.totals_record 1000 Sample.net (VStr "dev") Sample.report None),
          AnalyserJob.totals_record 1000 Sample.net (VStr "dev") Sample.report None)).
  { apply add_to_prediction_log_ok. unfold per_label_arrays. simpl. lia. }
  split; [exact H|].
  exact (proj1 (add_to_prediction_log_job_id_constant _ _ _ _ _ _ _ _ H)).
Defined.

(** C9: whatever [max_workers] the constructor is given, the pool is
    built by [executor(max_workers=None)]: the analyser made does not
    depend on the argument, and for the executor classes of
    [concurrent.futures] the pool's [max_workers] is [None]. *)
Theorem init_ignores_max_workers (analyser_cache : gmap string t) (stamp uuid : string)
    (log_dir : option string) (requested : option nat)
    (executor : option nat → Executor) (train_options : option dict)
    (job_completed : option (JobResult → option exn)) :
  let self := (__init__ analyser_cache stamp uuid log_dir requested executor
                 train_options job_completed).1 in
  NeuralNetAnalyser.executor self = executor None ∧
  (∀ other_requested,
     __init__ analyser_cache stamp uuid log_dir other_requested executor
       train_options job_completed
     = __init__ analyser_cache stamp uuid log_dir requested executor
         train_options job_completed) ∧
  max_workers
    (NeuralNetAnalyser.executor
       (__init__ analyser_cache stamp uuid log_dir requested ProcessPoolExecutor
          train_options job_completed).1) = None ∧
  max_workers
    (NeuralNetAnalyser.executor
       (__init__ analyser_cache stamp uuid log_dir requested ThreadPoolExecutor
          train_options job_completed).1) = None.
Proof.
  repeat split.
Qed.

(** ** The text of a [KeyError] *)




(** ** The completion drain *)

Section Drain.

Variable to_csv : string → DataFrame → option exn.

Lemma rows_append_rows df items :
  rows (append_rows df items) = rows df ++ items.
Proof.
  revert df. induction items as [|item items IH]; intros df; simpl.
  - by rewrite app_nil_r.
  - unfold append_rows in *. simpl. rewrite IH. simpl. by rewrite <- app_assoc.
Qed.

Lemma for_each_update {A} (f : A → t → t) (items : list A) (p : Proc) :
  for_each items (λ item, update (f item)) p =
    ({| this := foldl (λ self item, f item self) (this p) items; out := out p |}, Ok ()).
Proof.
  revert p. induction items as [|item items IH]; intros p; simpl.
  - by destruct p.
  - unfold mbind, SE_bind. simpl. by rewrite IH.
Qed.

Lemma _append_job_data_eq train_data prediction_data (p : Proc) :
  _append_job_data train_data prediction_data p =
    ({| this := merged train_data prediction_data (this p); out := out p |}, Ok ()).
Proof.
  unfold _append_job_data, mbind, SE_bind.
  rewrite for_each_update. rewrite for_each_update. simpl.
  f_equal. f_equal. unfold merged.
  assert (Hp : ∀ items self,
    foldl (λ self item,
             set_prediction_log self (DataFrame_append (prediction_log self) item))
      self items
    = set_prediction_log self (append_rows (prediction_log self) items)).
  { induction items as [|item items IH]; intros self; simpl.
    - by destruct self.
    - by rewrite IH. }
  assert (Ht : ∀ items self,
    foldl (λ self item,
             set_train_log self (DataFrame_append (train_log self) item))
      self items
    = set_train_log self (append_rows (train_log self) items)).
  { induction items as [|item items IH]; intros self; simpl.
    - by destruct self.
    - by rewrite IH. }
  by rewrite Hp, Ht.
Qed.

Lemma merged_fields td pd self :
  worker_list (merged td pd self) = worker_list self ∧
  job_completed (merged td pd self) = job_completed self ∧
  log_dir (merged td pd self) = log_dir self ∧
  rows (prediction_log (merged td pd self)) = rows (prediction_log self) ++ pd ∧
  rows (train_log (merged td pd self)) = rows (train_log self) ++ td.
Proof.
  unfold merged. simpl. by rewrite !rows_append_rows.
Qed.

(** A failure is caught unless it escapes. *)
Lemma caught_failure (future : Future) (exc : exn) :
  escapes future = false → fut_result future = Raise exc → is_Exception exc = true.
Proof.
  unfold escapes. intros He Hres. rewrite Hres in He. by destruct (is_Exception exc).
Qed.

(** What [on_future] does for a future whose failure is not caught:
    nothing but raise. *)
Lemma on_future_escape future exc (p : Proc) :
  fut_result future = Raise exc → is_Exception exc = false →
  on_future to_csv future p = (p, Raise exc).
Proof.
  intros Hres Hexc. unfold on_future. by rewrite Hres, Hexc.
Qed.

(** What [on_future] does for a future whose failure is caught. *)
Lemma on_future_raise future exc (p : Proc) :
  fut_result future = Raise exc → is_Exception exc = true →
  on_future to_csv future p =
    match list_remove future (worker_list (this p)) with
    | Some l =>
        ({| this := set_worker_list (this p) l;
            out := (out p ++ [Print "ERROR"]) ++ [Print (exc_str exc)] |}, Ok ())
    | None =>
        ({| this := this p;
            out := (out p ++ [Print "ERROR"]) ++ [Print (exc_str exc)] |},
         Raise (ValueError "list.remove(x): x not in list"))
    end.
Proof.
  intros Hres Hexc. unfold on_future. rewrite Hres, Hexc.
  unfold mbind, SE_bind, print, emit, modify, worker_list_remove. simpl.
  unfold mbind, SE_bind, get. simpl.
  by destruct (list_remove future (worker_list (this p))).
Qed.

(** [on_future] for a future that succeeded: merge, then callback and
    [save_logs]. *)
Lemma on_future_ok_eq future td pd (p : Proc) :
  fut_result future = Ok (td, pd) →
  on_future to_csv future p =
    (mbind (M := SE Proc) (λ _ : (), save_logs to_csv)
       (match job_completed (this p) with
        | Some cb =>
            call_job_completed cb {| train_data := td; prediction_data := pd |}
        | None => mret ()
        end))
      {| this := merged td pd (this p); out := out p |}.
Proof.
  intros Hres. unfold on_future. rewrite Hres.
  unfold mbind at 1 2 3. unfold SE_bind at 1 2 3.
  rewrite _append_job_data_eq. unfold get at 1. cbn [this out].
  destruct (merged_fields td pd (this p)) as (_ & -> & _).
  reflexivity.
Qed.

(** What [on_future] does for a future that succeeded, when neither the
    callback nor the writer raises. *)
Lemma on_future_ok future td pd (p : Proc) :
  writes_succeed to_csv → callback_returns (this p) →
  fut_result future = Ok (td, pd) →
  ∃ o, on_future to_csv future p =
    ({| this := merged td pd (this p); out := out p ++ o |}, Ok ()) ∧
    filter is_Print o = [].
Proof.
  intros Hw Hcb Hres. unfold on_future. rewrite Hres.
  unfold mbind at 1 2 3. unfold SE_bind at 1 2 3.
  rewrite _append_job_data_eq. unfold get at 1.
  cbn [this out].
  destruct (merged_fields td pd (this p)) as (_ & Hjc & _).
  rewrite Hjc.
  unfold save_logs, DataFrame_to_csv, call_job_completed.
  unfold mbind, SE_bind, get, emit, modify.
  destruct (job_completed (this p)) as [cb|] eqn:Hcbp.
  - simpl. rewrite (Hcb cb _ Hcbp). simpl. rewrite !Hw. simpl.
    eexists. split; [by rewrite <- !app_assoc|]. done.
  - simpl. rewrite !Hw. simpl.
    eexists. split; [by rewrite <- !app_assoc|]. done.
Qed.

(** For a future that succeeded, the logs afterwards and whether the
    step raises depend on the logs, the callback and the log directory
    only. *)
Lemma on_future_alike future td pd (p q : Proc) :
  fut_result future = Ok (td, pd) →
  alike p q →
  alike (on_future to_csv future p).1 (on_future to_csv future q).1 ∧
  (on_future to_csv future p).2 = (on_future to_csv future q).2 ∧
  worker_list (this (on_future to_csv future p).1) = worker_list (this p).
Proof.
  intros Hres ([Hpl Htl] & Hjc & Hld).
  rewrite !(on_future_ok_eq _ td pd _ Hres).
  unfold mbind, SE_bind. rewrite <- Hjc.
  destruct (merged_fields td pd (this p)) as (Hwl & Hjcp & _).
  assert (Hm : ∀ o1 o2, alike {| this := merged td pd (this p); out := o1 |}
                              {| this := merged td pd (this q); out := o2 |}).
  { intros o1 o2. unfold alike, same_logs, merged. simpl.
    by rewrite Hpl, Htl, Hld, Hjc. }
  assert (Hsave : ∀ a b : Proc, alike a b →
    worker_list (this a) = worker_list (this p) →
    alike (save_logs to_csv a).1 (save_logs to_csv b).1 ∧
    (save_logs to_csv a).2 = (save_logs to_csv b).2 ∧
    worker_list (this (save_logs to_csv a).1) = worker_list (this p)).
  { intros a b ([Hapl Hatl] & Hajc & Hald) Hawl.
    unfold save_logs, DataFrame_to_csv, mbind, SE_bind, get, emit, modify. simpl.
    rewrite <- Hapl, <- Hatl, <- Hald.
    destruct (to_csv _ (prediction_log (this a))); simpl.
    { unfold alike, same_logs. simpl. repeat split; congruence. }
    destruct (to_csv _ (train_log (this a))); simpl.
    all: unfold alike, same_logs; simpl; repeat split; congruence. }
  destruct (job_completed (this p)) as [cb|].
  - unfold call_job_completed, mbind, SE_bind, emit, modify. simpl.
    destruct (cb _); simpl.
    + split; [apply Hm|]. done.
    + apply Hsave; [apply Hm|done].
  - simpl. apply Hsave; [apply Hm|done].
Qed.

Lemma list_remove_filter future (l : list Future) :
  NoDup (fut_id <$> l) → fut_id future ∈ fut_id <$> l →
  list_remove future l = Some (filter (λ f, fut_id f ≠ fut_id future) l).
Proof.
  induction l as [|f l IH]; simpl; intros Hnd Hin.
  - by apply elem_of_nil in Hin.
  - apply NoDup_cons in Hnd as [Hf Hnd].
    destruct (decide (fut_id f = fut_id future)) as [Heq|Hne].
    + rewrite filter_cons_False by (intros H; by apply H).
      f_equal. symmetry. clear IH Hin Hnd.
      induction l as [|g l IH]; [done|].
      rewrite fmap_cons, not_elem_of_cons in Hf. destruct Hf as [Hg Hf].
      rewrite filter_cons_True by congruence. f_equal. by apply IH.
    + rewrite filter_cons_True by done.
      apply elem_of_cons in Hin as [Hin|Hin]; [congruence|].
      by rewrite IH.
Qed.

Lemma NoDup_ids_filter (P : Future → Prop) `{∀ f, Decision (P f)} (l : list Future) :
  NoDup (fut_id <$> l) → NoDup (fut_id <$> filter P l).
Proof.
  induction l as [|f l IH]; [done|].
  rewrite fmap_cons. intros [Hf Hnd]%NoDup_cons.
  destruct (decide (P f)).
  - rewrite filter_cons_True by done. rewrite fmap_cons. apply NoDup_cons.
    split; [|by apply IH].
    intros (g & Hid & Hg)%list_elem_of_fmap. apply Hf.
    apply list_elem_of_filter in Hg as [_ Hg].
    rewrite Hid. by apply list_elem_of_fmap_2.
  - rewrite filter_cons_False by done. by apply IH.
Qed.

Lemma length_concat_fmap {A B} (g : A → list B) (l : list A) :
  length (concat (g <$> l)) = sum_list_with (λ x, length (g x)) l.
Proof.
  induction l as [|x l IH]; simpl; [done|]. rewrite length_app. f_equal. exact IH.
Qed.

Lemma sum_succeeded (g : Future → list dict) (l : list Future) :
  (∀ f, succeeded f = false → g f = []) →
  sum_list_with (λ f, length (g f)) (filter (λ f, succeeded f = true) l)
  = sum_list_with (λ f, length (g f)) l.
Proof.
  intros Hg. induction l as [|f l IH]; [done|].
  destruct (succeeded f) eqn:Hs.
  - rewrite filter_cons_True by done. simpl. by rewrite IH.
  - rewrite filter_cons_False by congruence. simpl.
    by rewrite IH, (Hg f Hs).
Qed.

Lemma rows_of_failed (f : Future) :
  succeeded f = false →
  train_rows_of f = [] ∧ prediction_rows_of f = [] ∧
  ∃ exc, fut_result f = Raise exc.
Proof.
  unfold succeeded, train_rows_of, prediction_rows_of.
  destruct (fut_result f) as [[td pd]|exc]; simpl; [done|].
  intros _. split; [done|]. split; [done|]. by exists exc.
Qed.

Lemma rows_of_succeeded (f : Future) :
  succeeded f = true →
  report_of f = [] ∧
  ∃ td pd, fut_result f = Ok (td, pd) ∧
           train_rows_of f = td ∧ prediction_rows_of f = pd.
Proof.
  unfold succeeded, train_rows_of, prediction_rows_of, report_of.
  destruct (fut_result f) as [[td pd]|exc]; simpl; [|done].
  intros _. split; [done|]. by exists td, pd.
Qed.

(** The whole drain when neither the callback nor the writer raises. *)
Lemma start_quiet (order : list Future) (p : Proc) :
  writes_succeed to_csv → failures_caught order → callback_returns (this p) →
  NoDup (fut_id <$> worker_list (this p)) → pending order (this p) →
  ∃ p', start to_csv order p = (p', Ok ()) ∧
    rows (prediction_log (this p')) =
      rows (prediction_log (this p)) ++ concat (prediction_rows_of <$> order) ∧
    rows (train_log (this p')) =
      rows (train_log (this p)) ++ concat (train_rows_of <$> order) ∧
    worker_list (this p') =
      filter (λ f, fut_id f ∉ fut_id <$> filter (λ g, succeeded g = false) order)
        (worker_list (this p)) ∧
    filter is_Print (out p') =
      filter is_Print (out p) ++ concat (report_of <$> order) ∧
    job_completed (this p') = job_completed (this p).
Proof.
  intros Hw Hfc. unfold start. revert p.
  induction order as [|f order IH]; intros p Hcb Hnd [Hord Hin]; cbn [for_each].
  - exists p. cbn [fmap list_fmap concat]. rewrite !app_nil_r. repeat split; try done.
    symmetry. clear. induction (worker_list (this p)) as [|g l IHl]; [done|].
    rewrite filter_cons_True; [by f_equal|]. simpl. apply not_elem_of_nil.
  - apply Forall_cons in Hfc as [Hf0 Hfc]. specialize (IH Hfc).
    rewrite fmap_cons in Hord. apply NoDup_cons in Hord as [Hf Hord].
    unfold mbind, SE_bind.
    destruct (succeeded f) eqn:Hs.
    + destruct (rows_of_succeeded f Hs) as (Hrep & td & pd & Hres & Htd & Hpd).
      destruct (on_future_ok f td pd p Hw Hcb Hres) as (o & -> & Ho).
      destruct (merged_fields td pd (this p)) as (Hwl & Hjc & _ & Hprows & Htrows).
      destruct (IH {| this := merged td pd (this p); out := out p ++ o |})
        as (p' & -> & Hp & Ht & Hl & Hout & Hjc').
      * intros cb r Hcbq. apply (Hcb cb r). cbn [this] in Hcbq.
        by rewrite Hjc in Hcbq.
      * cbn [this]. by rewrite Hwl.
      * split; [done|]. cbn [this]. rewrite Hwl. intros g Hg. apply Hin. by right.
      * exists p'. split; [done|]. cbn [this out] in *.
        rewrite Hp, Ht, Hl, Hout, Hjc', Hjc, Hprows, Htrows, Hwl, !fmap_cons, Htd, Hpd, Hrep.
        cbn [concat].
        rewrite filter_cons_False by congruence.
        rewrite filter_app, Ho, app_nil_r, <- !app_assoc. done.
    + destruct (rows_of_failed f Hs) as (Htd & Hpd & exc & Hres).
      rewrite (on_future_raise f exc p Hres (caught_failure f exc Hf0 Hres)).
      rewrite (list_remove_filter f (worker_list (this p)) Hnd)
        by (apply Hin; by left).
      set (l := filter (λ g, fut_id g ≠ fut_id f) (worker_list (this p))).
      destruct (IH {| this := set_worker_list (this p) l;
                      out := (out p ++ [Print "ERROR"]) ++ [Print (exc_str exc)] |})
        as (p' & -> & Hp & Ht & Hl & Hout & Hjc').
      * done.
      * cbn [this worker_list set_worker_list]. subst l. by apply NoDup_ids_filter.
      * split; [done|]. simpl. intros g Hg.
        assert (Hgf : fut_id g ≠ fut_id f).
        { intros Heq. apply Hf. rewrite <- Heq. by apply list_elem_of_fmap_2. }
        assert (Hgin : fut_id g ∈ fut_id <$> worker_list (this p))
          by (apply Hin; by right).
        apply list_elem_of_fmap in Hgin as (g' & Hid & Hg').
        apply list_elem_of_fmap. exists g'. split; [done|].
        subst l. apply list_elem_of_filter. split; [congruence|done].
      * exists p'. split; [done|]. simpl in *.
        rewrite Hp, Ht, Hl, Hout, Hjc', Htd, Hpd.
        unfold report_of at 2. rewrite Hres.
        rewrite filter_cons_True by done. rewrite fmap_cons.
        repeat split; try done.
        -- subst l. rewrite list_filter_filter. apply list_filter_iff.
           intros g. rewrite not_elem_of_cons. tauto.
        -- rewrite !filter_app. simpl. by rewrite <- !app_assoc.
Qed.

Lemma same_id_same_future (l : list Future) (f g : Future) :
  NoDup (fut_id <$> l) → f ∈ l → g ∈ l → fut_id f = fut_id g → f = g.
Proof.
  induction l as [|h l IH]; [by intros _ ?%elem_of_nil|].
  rewrite fmap_cons. intros [Hh Hnd]%NoDup_cons Hf Hg Hid.
  apply elem_of_cons in Hf as [->|Hf]; apply elem_of_cons in Hg as [->|Hg].
  - done.
  - exfalso. apply Hh. rewrite Hid. by apply list_elem_of_fmap_2.
  - exfalso. apply Hh. rewrite <- Hid. by apply list_elem_of_fmap_2.
  - by apply IH.
Qed.

Lemma filter_iff_in {A} (P Q : A → Prop) `{∀ x, Decision (P x)}
    `{∀ x, Decision (Q x)} (l : list A) :
  (∀ x, x ∈ l → P x ↔ Q x) → filter P l = filter Q l.
Proof.
  induction l as [|x l IH]; [done|]. intros HPQ.
  assert (Hl : filter P l = filter Q l).
  { apply IH. intros y Hy. apply HPQ. by right. }
  destruct (decide (P x)) as [HP|HP].
  - rewrite !filter_cons_True; [by f_equal| |done]. apply HPQ; [by left|done].
  - rewrite !filter_cons_False; [done| |done]. intros HQ. apply HP, HPQ; [by left|done].
Qed.

Lemma as_completed_pending (self : t) (order : list Future) :
  distinct_futures self → _as_completed self order → pending order self.
Proof.
  unfold distinct_futures, _as_completed, pending. intros Hnd Hperm. split.
  - by rewrite Hperm.
  - intros f Hf. apply list_elem_of_fmap_2. by rewrite <- Hperm.
Qed.

(** Dropping the futures that failed among [order] from the worker
    list leaves the futures that succeeded. *)
Lemma failed_removed (self : t) (order : list Future) :
  distinct_futures self → _as_completed self order →
  filter (λ f, fut_id f ∉ fut_id <$> filter (λ g, succeeded g = false) order)
    (worker_list self)
  = filter (λ f, succeeded f = true) (worker_list self).
Proof.
  unfold distinct_futures, _as_completed. intros Hnd Hperm.
  apply filter_iff_in. intros f Hf. split.
  - intros Hnot. destruct (succeeded f) eqn:Hs; [done|].
    exfalso. apply Hnot. apply list_elem_of_fmap_2.
    apply list_elem_of_filter. split; [done|]. by rewrite Hperm.
  - intros Hs (g & Hid & Hg)%list_elem_of_fmap.
    apply list_elem_of_filter in Hg as [Hgs Hg]. rewrite Hperm in Hg.
    assert (f = g) by (by apply (same_id_same_future (worker_list self))).
    congruence.
Qed.

(** A drain gives the same logs, and raises or not, as the drain of
    the futures that succeeded alone. *)
Lemma start_alike (order : list Future) (p q : Proc) :
  failures_caught order →
  alike p q → NoDup (fut_id <$> worker_list (this p)) → pending order (this p) →
  alike (start to_csv order p).1
        (start to_csv (filter (λ f, succeeded f = true) order) q).1 ∧
  (start to_csv order p).2 =
    (start to_csv (filter (λ f, succeeded f = true) order) q).2.
Proof.
  intros Hfc. unfold start. revert p q.
  induction order as [|f order IH]; intros p q Hpq Hnd [Hord Hin]; [done|].
  apply Forall_cons in Hfc as [Hf0 Hfc]. specialize (IH Hfc).
  rewrite fmap_cons in Hord. apply NoDup_cons in Hord as [Hf Hord].
  destruct (succeeded f) eqn:Hs.
  - rewrite filter_cons_True by done. cbn [for_each].
    destruct (rows_of_succeeded f Hs) as (_ & td & pd & Hres & _).
    destruct (on_future_alike f td pd p q Hres Hpq) as (Halike & Hr & Hwl).
    unfold mbind, SE_bind.
    destruct (on_future to_csv f p) as [p1 r1], (on_future to_csv f q) as [q1 r2].
    simpl in Halike, Hr, Hwl. subst r2.
    destruct r1 as [[]|e]; [|done].
    apply IH; [done|by rewrite Hwl|].
    split; [done|]. rewrite Hwl. intros g Hg. apply Hin. by right.
  - rewrite filter_cons_False by congruence. cbn [for_each].
    destruct (rows_of_failed f Hs) as (_ & _ & exc & Hres).
    unfold mbind, SE_bind.
    rewrite (on_future_raise f exc p Hres (caught_failure f exc Hf0 Hres)).
    rewrite (list_remove_filter f (worker_list (this p)) Hnd)
      by (apply Hin; by left).
    apply IH.
    + destruct Hpq as ([Hpl Htl] & Hjc & Hld).
      unfold alike, same_logs. cbn [this]. simpl. done.
    + cbn [this worker_list set_worker_list]. by apply NoDup_ids_filter.
    + split; [done|]. cbn [this worker_list set_worker_list]. intros g Hg.
      assert (Hgf : fut_id g ≠ fut_id f).
      { intros Heq. apply Hf. rewrite <- Heq. by apply list_elem_of_fmap_2. }
      assert (Hgin : fut_id g ∈ fut_id <$> worker_list (this p))
        by (apply Hin; by right).
      apply list_elem_of_fmap in Hgin as (g' & Hid & Hg').
      apply list_elem_of_fmap. exists g'. split; [done|].
      apply list_elem_of_filter. split; [congruence|done].
Qed.

Lemma handled_caught (order : list Future) : failures_caught (handled order).
Proof.
  induction order as [|f order IH]; [constructor|]. cbn [handled].
  destruct (escapes f) eqn:He; [constructor|]. by constructor.
Qed.

Lemma handled_all (order : list Future) :
  failures_caught order → handled order = order ∧ first_escape order = None.
Proof.
  induction 1 as [|f order Hf _ [IH1 IH2]]; [done|]. cbn [handled first_escape].
  rewrite Hf, IH1. split; [done|]. unfold escapes in Hf.
  destruct (fut_result f) as [?|exc]; [done|]. by destruct (is_Exception exc).
Qed.

Lemma first_escape_caught (order : list Future) :
  first_escape order = None → failures_caught order.
Proof.
  induction order as [|f order IH]; [constructor|]. cbn [first_escape].
  intros H. constructor.
  - unfold escapes. destruct (fut_result f) as [?|exc]; [done|].
    by destruct (is_Exception exc).
  - apply IH. destruct (fut_result f) as [?|exc]; [done|].
    by destruct (is_Exception exc).
Qed.

Lemma handled_elem (order : list Future) (f : Future) :
  f ∈ handled order → f ∈ order.
Proof.
  induction order as [|g order IH]; [done|]. cbn [handled].
  destruct (escapes g); [by intros ?%elem_of_nil|].
  intros [->|Hf]%elem_of_cons; [by left|]. right. by apply IH.
Qed.

Lemma pending_handled (order : list Future) (self : t) :
  pending order self → pending (handled order) self.
Proof.
  intros [Hnd Hin]. split.
  - clear Hin. induction order as [|g order IH]; [done|]. cbn [handled].
    rewrite fmap_cons in Hnd. apply NoDup_cons in Hnd as [Hg Hnd].
    destruct (escapes g); [apply NoDup_nil_2|].
    rewrite fmap_cons. apply NoDup_cons. split; [|by apply IH].
    intros (h & Hid & Hh)%list_elem_of_fmap. apply Hg.
    apply list_elem_of_fmap. exists h. split; [done|]. by apply handled_elem.
  - intros f Hf. apply Hin. by apply handled_elem.
Qed.

(** [start] ends at the first future whose failure is not caught: the
    analyser and the output are those of the drain of the futures
    before it, and its exception is raised unless the drain raised
    before. *)
Lemma start_handled (order : list Future) (p : Proc) :
  (start to_csv order p).1 = (start to_csv (handled order) p).1 ∧
  (start to_csv order p).2 =
    match (start to_csv (handled order) p).2, first_escape order with
    | Ok _, Some exc => Raise exc
    | r, _ => r
    end.
Proof.
  unfold start. revert p. induction order as [|f order IH]; intros p.
  - split; [done|]. cbn. done.
  - cbn [handled first_escape]. unfold escapes.
    destruct (fut_result f) as [[td pd]|exc] eqn:Hres.
    + cbn [for_each]. unfold mbind, SE_bind.
      destruct (on_future to_csv f p) as [p1 [[]|e]]; [apply IH|].
      split; [done|]. cbn. by destruct (first_escape order).
    + destruct (is_Exception exc) eqn:Hexc; cbn [negb].
      * cbn [for_each]. unfold mbind, SE_bind.
        destruct (on_future to_csv f p) as [p1 [[]|e]]; [apply IH|].
        split; [done|]. cbn. by destruct (first_escape order).
      * cbn [for_each]. unfold mbind, SE_bind.
        rewrite (on_future_escape f exc p Hres Hexc). done.
Qed.

(** The whole drain when neither the callback nor the writer raises,
    whatever the failures. *)
Lemma start_quiet_any (order : list Future) (p : Proc) :
  writes_succeed to_csv → callback_returns (this p) →
  NoDup (fut_id <$> worker_list (this p)) → pending order (this p) →
  let p' := (start to_csv order p).1 in
  (start to_csv order p).2 =
    match first_escape order with Some exc => Raise exc | None => Ok () end ∧
  rows (prediction_log (this p')) =
    rows (prediction_log (this p)) ++ concat (prediction_rows_of <$> handled order) ∧
  rows (train_log (this p')) =
    rows (train_log (this p)) ++ concat (train_rows_of <$> handled order) ∧
  worker_list (this p') =
    filter (λ f, fut_id f ∉ fut_id <$> filter (λ g, succeeded g = false) (handled order))
      (worker_list (this p)) ∧
  filter is_Print (out p') =
    filter is_Print (out p) ++ concat (report_of <$> handled order) ∧
  job_completed (this p') = job_completed (this p).
Proof.
  intros Hw Hcb Hnd Hpend p'.
  destruct (start_handled order p) as [Hstate Hres]. subst p'. rewrite Hstate, Hres.
  destruct (start_quiet (handled order) p Hw (handled_caught order) Hcb Hnd
              (pending_handled _ _ Hpend)) as (q & -> & Hq).
  cbn [fst snd]. split; [by destruct (first_escape order)|exact Hq].
Qed.

Lemma concat_fmap_elem {A B} (g : A → list B) (l : list A) (x : A) :
  x ∈ l → ∃ l1 l2, concat (g <$> l) = l1 ++ g x ++ l2.
Proof.
  intros (l1 & l2 & ->)%list_elem_of_split.
  exists (concat (g <$> l1)), (concat (g <$> l2)).
  by rewrite fmap_app, concat_app, fmap_cons.
Qed.

End Drain.

(** The sample inputs meet the side conditions of the statements on
    the drain. *)
Lemma sample_writes_succeed : writes_succeed Sample.to_csv.
Proof. intros file df. reflexivity. Qed.

Lemma sample_callback_returns : callback_returns Sample.three_jobs.
Proof. intros cb r H. vm_compute in H. discriminate H. Qed.

Lemma sample_distinct_futures : distinct_futures Sample.three_jobs.
Proof.
  unfold distinct_futures.
  replace (fut_id <$> worker_list Sample.three_jobs) with [0; 1; 2]%nat
    by (vm_compute; reflexivity).
  repeat (apply NoDup_cons; split;
          [rewrite ?elem_of_cons, elem_of_nil; lia|]).
  apply NoDup_nil_2.
Qed.

Lemma sample_as_completed :
  _as_completed Sample.three_jobs (reverse (worker_list Sample.three_jobs)).
Proof. unfold _as_completed. apply reverse_Permutation. Qed.

Lemma sample_as_completed_in_order :
  _as_completed Sample.three_jobs (worker_list Sample.three_jobs).
Proof. unfold _as_completed. reflexivity. Qed.

Lemma failures_caught_perm (order l : list Future) :
  order ≡ₚ l → failures_caught l → failures_caught order.
Proof.
  unfold failures_caught. intros Hperm. rewrite !Forall_forall.
  intros H f Hf. apply H. by rewrite <- Hperm.
Qed.

Lemma sample_failures_caught : failures_caught (worker_list Sample.three_jobs).
Proof.
  unfold failures_caught. apply (Forall_fmap escapes (λ b, b = false)).
  replace (escapes <$> worker_list Sample.three_jobs) with [false; false; false]
    by (vm_compute; reflexivity).
  repeat constructor.
Qed.

Lemma sample_failures_caught_reverse :
  failures_caught (reverse (worker_list Sample.three_jobs)).
Proof.
  apply (failures_caught_perm _ (worker_list Sample.three_jobs)).
  - apply reverse_Permutation.
  - exact sample_failures_caught.
Qed.

(** C2: a future that failed leaves both aggregate logs as they are,
    whatever the job did before it raised and whatever the class of the
    exception; a whole drain ends with the logs of the drain of the
    futures that succeeded among those [start] got through; and when
    every failure is an instance of [Exception] it ends with the logs,
    and with the outcome, of the drain of the futures that succeeded
    alone.  So no row of a failed job is in either log. *)
Theorem failed_job_adds_no_rows (to_csv : string → DataFrame → option exn)
    (p : Proc) (order : list Future) :
  distinct_futures (this p) → _as_completed (this p) order →
  (∀ (q : Proc) (future : Future) (exc : exn),
     fut_result future = Raise exc →
     same_logs (this (on_future to_csv future q).1) (this q)) ∧
  same_logs (this (start to_csv order p).1)
            (this (start to_csv (filter (λ f, succeeded f = true) (handled order)) p).1) ∧
  (failures_caught order →
   same_logs (this (start to_csv order p).1)
             (this (start to_csv (filter (λ f, succeeded f = true) order) p).1) ∧
   (start to_csv order p).2 =
     (start to_csv (filter (λ f, succeeded f = true) order) p).2).
Proof.
  intros Hnd Hperm. split; [|split].
  - intros q future exc Hres. destruct (is_Exception exc) eqn:Hexc.
    + rewrite (on_future_raise to_csv future exc q Hres Hexc).
      by destruct (list_remove future (worker_list (this q))).
    + by rewrite (on_future_escape to_csv future exc q Hres Hexc).
  - destruct (start_handled to_csv order p) as [-> _].
    destruct (start_alike to_csv (handled order) p p) as [(Hlogs & _) _].
    + apply handled_caught.
    + done.
    + exact Hnd.
    + apply pending_handled. by apply as_completed_pending.
    + exact Hlogs.
  - intros Hfc.
    destruct (start_alike to_csv order p p) as [(Hlogs & _) Hr].
    + exact Hfc.
    + done.
    + exact Hnd.
    + by apply as_completed_pending.
    + by split.
Qed.

Lemma failed_job_adds_no_rows_witness :
  distinct_futures Sample.three_jobs ∧
  _as_completed Sample.three_jobs (reverse (worker_list Sample.three_jobs)) ∧
  ∀ (q : Proc) (future : Future) (exc : exn),
    fut_result future = Raise exc →
    same_logs (this (on_future Sample.to_csv future q).1) (this q).
Proof.
  split; [exact sample_distinct_futures|].
  split; [exact sample_as_completed|].
  exact (proj1 (failed_job_adds_no_rows Sample.to_csv (Sample.proc Sample.three_jobs)
                  (reverse (worker_list Sample.three_jobs))
                  sample_distinct_futures sample_as_completed)).
Defined.

(** C3, as stated, fails: [start] catches a job's failure only when the
    exception is an instance of [Exception].  Here the first job
    succeeds and the second leaves through [sys.exit(1)] and completes
    first: [start] raises [SystemExit], prints nothing, removes no
    future, and the records of the sibling that succeeded are never
    merged. *)
Lemma start_raises_on_system_exit :
  let p := Sample.proc Sample.exit_jobs in
  let order := reverse (worker_list Sample.exit_jobs) in
  writes_succeed Sample.to_csv ∧ callback_returns (this p) ∧
  distinct_futures (this p) ∧ _as_completed (this p) order ∧
  (succeeded <$> order) = [false; true] ∧
  start Sample.to_csv order p = (p, Raise (BaseException "SystemExit" "1")) ∧
  out p = [] ∧
  length (worker_list (this p)) = 2%nat ∧
  rows (train_log (this p)) = [] ∧ rows (prediction_log (this p)) = [].
Proof.
  intros p order.
  split; [exact sample_writes_succeed|].
  split; [intros cb r H; vm_compute in H; discriminate H|].
  split.
  { unfold distinct_futures.
    replace (fut_id <$> worker_list (this p)) with [0; 1]%nat
      by (vm_compute; reflexivity).
    repeat (apply NoDup_cons; split;
            [rewrite ?elem_of_cons, elem_of_nil; lia|]).
    apply NoDup_nil_2. }
  split; [unfold _as_completed; apply reverse_Permutation|].
  split; [vm_compute; reflexivity|].
  assert (Hh : handled order = []) by (vm_compute; reflexivity).
  assert (He : first_escape order = Some (BaseException "SystemExit" "1"))
    by (vm_compute; reflexivity).
  destruct (start_handled Sample.to_csv order p) as [Hstate Hres].
  rewrite Hh in Hstate, Hres. rewrite He in Hres.
  change (start Sample.to_csv [] p) with (p, @Ok () ()) in Hstate, Hres.
  cbn [fst snd] in Hstate, Hres.
  split.
  { destruct (start Sample.to_csv order p) as [p' r]. cbn [fst snd] in Hstate, Hres.
    by rewrite Hstate, Hres. }
  split; [reflexivity|]. split; [vm_compute; reflexivity|].
  split; reflexivity.
Qed.

(** C3 (amended): when neither the user callback nor the csv writer
    raises, [start] returns without raising exactly when every failure
    among the jobs is an instance of [Exception].  Then every future that
    failed is taken out of the worker list and reported by ["ERROR"] and
    the exception's text, in completion order, and the records of every
    job that succeeded are in the aggregate logs, each job's as one run
    of rows.  Otherwise [start] raises the exception of the first future
    whose failure is of another class, and the analyser and the output
    are those of the drain of the futures that completed before it: that
    future is neither reported nor removed, and no later future is looked
    at. *)
Theorem start_survives_failures (to_csv : string → DataFrame → option exn)
    (p : Proc) (order : list Future) :
  writes_succeed to_csv → callback_returns (this p) →
  distinct_futures (this p) → _as_completed (this p) order →
  ((start to_csv order p).2 = Ok () ↔ failures_caught order) ∧
  (failures_caught order →
   ∃ p', start to_csv order p = (p', Ok ()) ∧
    worker_list (this p') = filter (λ f, succeeded f = true) (worker_list (this p)) ∧
    filter is_Print (out p') = filter is_Print (out p) ++ concat (report_of <$> order) ∧
    rows (prediction_log (this p')) =
      rows (prediction_log (this p)) ++ concat (prediction_rows_of <$> order) ∧
    rows (train_log (this p')) =
      rows (train_log (this p)) ++ concat (train_rows_of <$> order) ∧
    ∀ future, future ∈ worker_list (this p) → succeeded future = true →
      (∃ l1 l2, rows (prediction_log (this p')) = l1 ++ prediction_rows_of future ++ l2) ∧
      (∃ l1 l2, rows (train_log (this p')) = l1 ++ train_rows_of future ++ l2)) ∧
  (∀ exc, first_escape order = Some exc →
     (start to_csv order p).2 = Raise exc ∧
     (start to_csv order p).1 = (start to_csv (handled order) p).1 ∧
     (start to_csv (handled order) p).2 = Ok () ∧
     (length (handled order) < length order)%nat).
Proof.
  intros Hw Hcb Hnd Hperm.
  pose proof (as_completed_pending _ _ Hnd Hperm) as Hpend.
  destruct (start_quiet_any to_csv order p Hw Hcb Hnd Hpend) as (Hres & _).
  split; [|split].
  - rewrite Hres. split.
    + intros H. apply first_escape_caught. by destruct (first_escape order).
    + intros Hfc. by destruct (handled_all order Hfc) as [_ ->].
  - intros Hfc.
    destruct (start_quiet to_csv order p Hw Hfc Hcb Hnd Hpend)
      as (p' & Hstart & Hp & Ht & Hl & Hout & _).
    exists p'. rewrite (failed_removed _ _ Hnd Hperm) in Hl.
    repeat split; try done.
    + assert (Hin : future ∈ order) by (by rewrite Hperm).
      destruct (concat_fmap_elem prediction_rows_of order future Hin) as (l1 & l2 & Hc).
      exists (rows (prediction_log (this p)) ++ l1), l2.
      by rewrite Hp, Hc, <- !app_assoc.
    + assert (Hin : future ∈ order) by (by rewrite Hperm).
      destruct (concat_fmap_elem train_rows_of order future Hin) as (l1 & l2 & Hc).
      exists (rows (train_log (this p)) ++ l1), l2.
      by rewrite Ht, Hc, <- !app_assoc.
  - intros exc Hesc. rewrite Hres, Hesc.
    destruct (start_handled to_csv order p) as [Hstate _].
    destruct (start_quiet to_csv (handled order) p Hw (handled_caught order) Hcb Hnd
                (pending_handled _ _ Hpend)) as (q & Hq & _).
    split; [done|]. split; [exact Hstate|]. split; [by rewrite Hq|].
    clear -Hesc. revert Hesc. induction order as [|f order IH]; [done|].
    cbn [first_escape handled]. unfold escapes.
    destruct (fut_result f) as [?|e].
    + intros H. specialize (IH H). cbn [length]. lia.
    + destruct (is_Exception e); cbn [negb length].
      * intros H. specialize (IH H). lia.
      * intros _. lia.
Qed.

Lemma start_survives_failures_witness :
  writes_succeed Sample.to_csv ∧ callback_returns Sample.three_jobs ∧
  distinct_futures Sample.three_jobs ∧
  _as_completed Sample.three_jobs (reverse (worker_list Sample.three_jobs)) ∧
  failures_caught (reverse (worker_list Sample.three_jobs)) ∧
  ∃ p', start Sample.to_csv (reverse (worker_list Sample.three_jobs))
          (Sample.proc Sample.three_jobs) = (p', Ok ()) ∧
    worker_list (this p') =
      filter (λ f, succeeded f = true) (worker_list Sample.three_jobs).
Proof.
  split; [exact sample_writes_succeed|].
  split; [exact sample_callback_returns|].
  split; [exact sample_distinct_futures|].
  split; [exact sample_as_completed|].
  split; [exact sample_failures_caught_reverse|].
  destruct (proj1 (proj2
              (start_survives_failures Sample.to_csv (Sample.proc Sample.three_jobs)
                 (reverse (worker_list Sample.three_jobs))
                 sample_writes_succeed sample_callback_returns
                 sample_distinct_futures sample_as_completed))
              sample_failures_caught_reverse)
    as (p' & Hstart & Hl & _).
  exists p'. split; [exact Hstart|exact Hl].
Defined.

(** C7, as stated, fails: with a job whose failure is not an instance
    of [Exception] the drain ends there, and the row counts depend on
    the completion order.  Here the first job succeeds with three
    training records and the second leaves through [sys.exit(1)]: when
    the first completes first the training log has three rows, when the
    second completes first it has none. *)
Lemma row_count_depends_on_order :
  let p := Sample.proc Sample.exit_jobs in
  let order := worker_list Sample.exit_jobs in
  let order' := reverse (worker_list Sample.exit_jobs) in
  writes_succeed Sample.to_csv ∧ callback_returns (this p) ∧
  distinct_futures (this p) ∧
  _as_completed (this p) order ∧ _as_completed (this p) order' ∧
  sum_list_with (λ f, length (train_rows_of f))
    (filter (λ f, succeeded f = true) (worker_list (this p))) = 3%nat ∧
  length (rows (train_log (this (start Sample.to_csv order p).1))) = 3%nat ∧
  length (rows (train_log (this (start Sample.to_csv order' p).1))) = 0%nat.
Proof.
  intros p order order'.
  assert (Hcb : callback_returns (this p))
    by (intros cb r H; vm_compute in H; discriminate H).
  assert (Hnd : distinct_futures (this p)).
  { unfold distinct_futures.
    replace (fut_id <$> worker_list (this p)) with [0; 1]%nat
      by (vm_compute; reflexivity).
    repeat (apply NoDup_cons; split;
            [rewrite ?elem_of_cons, elem_of_nil; lia|]).
    apply NoDup_nil_2. }
  assert (Hperm : _as_completed (this p) order) by (unfold _as_completed; reflexivity).
  assert (Hperm' : _as_completed (this p) order')
    by (unfold _as_completed; apply reverse_Permutation).
  split; [exact sample_writes_succeed|]. split; [exact Hcb|]. split; [exact Hnd|].
  split; [exact Hperm|]. split; [exact Hperm'|].
  split; [vm_compute; reflexivity|].
  destruct (start_quiet_any Sample.to_csv order p sample_writes_succeed Hcb Hnd
              (as_completed_pending _ _ Hnd Hperm)) as (_ & _ & Ht & _).
  destruct (start_quiet_any Sample.to_csv order' p sample_writes_succeed Hcb Hnd
              (as_completed_pending _ _ Hnd Hperm')) as (_ & _ & Ht' & _).
  rewrite Ht, Ht', !length_app, !length_concat_fmap.
  split; vm_compute; reflexivity.
Qed.

(** C7 (amended): when neither the user callback nor the csv writer
    raises, a drain adds to each aggregate log the records of the
    futures that succeeded among those [start] got through.  When every
    failure among the N submitted jobs is an instance of [Exception],
    of which F fail and S = N - F succeed, each log has after the drain
    the rows it had before and as many more as the S jobs that succeeded
    returned, whatever the completion order; for an analyser whose logs
    are empty, as they are until the first drain, the row count is the
    sum of the record counts of the S jobs. *)
Theorem drained_row_counts (to_csv : string → DataFrame → option exn)
    (p : Proc) (order order' : list Future) :
  writes_succeed to_csv → callback_returns (this p) →
  distinct_futures (this p) →
  _as_completed (this p) order → _as_completed (this p) order' →
  let submitted := worker_list (this p) in
  let ok := filter (λ f, succeeded f = true) submitted in
  let failed := filter (λ f, succeeded f = false) submitted in
  let p1 := (start to_csv order p).1 in
  let p2 := (start to_csv order' p).1 in
  length ok = (length submitted - length failed)%nat ∧
  length (rows (train_log (this p1))) =
    (length (rows (train_log (this p)))
     + sum_list_with (λ f, length (train_rows_of f))
         (filter (λ f, succeeded f = true) (handled order)))%nat ∧
  length (rows (prediction_log (this p1))) =
    (length (rows (prediction_log (this p)))
     + sum_list_with (λ f, length (prediction_rows_of f))
         (filter (λ f, succeeded f = true) (handled order)))%nat ∧
  (failures_caught submitted →
   length (rows (train_log (this p1))) =
     (length (rows (train_log (this p)))
      + sum_list_with (λ f, length (train_rows_of f)) ok)%nat ∧
   length (rows (prediction_log (this p1))) =
     (length (rows (prediction_log (this p)))
      + sum_list_with (λ f, length (prediction_rows_of f)) ok)%nat ∧
   length (rows (train_log (this p1))) = length (rows (train_log (this p2))) ∧
   length (rows (prediction_log (this p1))) = length (rows (prediction_log (this p2))) ∧
   (rows (train_log (this p)) = [] → rows (prediction_log (this p)) = [] →
    length (rows (train_log (this p1)))
      = sum_list_with (λ f, length (train_rows_of f)) ok ∧
    length (rows (prediction_log (this p1)))
      = sum_list_with (λ f, length (prediction_rows_of f)) ok)).
Proof.
  intros Hw Hcb Hnd Hperm Hperm' submitted ok failed p1 p2.
  assert (Hany : ∀ o, _as_completed (this p) o →
    length (rows (train_log (this (start to_csv o p).1))) =
      (length (rows (train_log (this p)))
       + sum_list_with (λ f, length (train_rows_of f))
           (filter (λ f, succeeded f = true) (handled o)))%nat ∧
    length (rows (prediction_log (this (start to_csv o p).1))) =
      (length (rows (prediction_log (this p)))
       + sum_list_with (λ f, length (prediction_rows_of f))
           (filter (λ f, succeeded f = true) (handled o)))%nat).
  { intros o Ho.
    destruct (start_quiet_any to_csv o p Hw Hcb Hnd (as_completed_pending _ _ Hnd Ho))
      as (_ & Hp & Ht & _).
    rewrite Hp, Ht, !length_app, !length_concat_fmap.
    rewrite !sum_succeeded; [done| |].
    all: intros f Hf; destruct (rows_of_failed f Hf) as (H1 & H2 & _);
         first [exact H1|exact H2]. }
  assert (Hcount : failures_caught submitted → ∀ o, _as_completed (this p) o →
    length (rows (train_log (this (start to_csv o p).1))) =
      (length (rows (train_log (this p)))
       + sum_list_with (λ f, length (train_rows_of f)) ok)%nat ∧
    length (rows (prediction_log (this (start to_csv o p).1))) =
      (length (rows (prediction_log (this p)))
       + sum_list_with (λ f, length (prediction_rows_of f)) ok)%nat).
  { intros Hfc o Ho. destruct (Hany o Ho) as [Ht Hp]. rewrite Ht, Hp.
    assert (Hfo : failures_caught o) by (by apply (failures_caught_perm _ submitted)).
    destruct (handled_all o Hfo) as [-> _].
    subst ok submitted. rewrite !sum_succeeded.
    2-5: intros f Hf; destruct (rows_of_failed f Hf) as (H1 & H2 & _);
         first [exact H1|exact H2].
    unfold _as_completed in Ho. by rewrite !Ho. }
  split; [|split; [|split]].
  - assert (Hsplit : (length ok + length failed = length submitted)%nat).
    { subst ok failed. clear. induction submitted as [|f l IH]; [done|].
      destruct (succeeded f) eqn:Hs.
      - rewrite filter_cons_True, filter_cons_False by congruence. simpl. lia.
      - rewrite filter_cons_False, filter_cons_True by congruence. simpl. lia. }
    lia.
  - apply (Hany order Hperm).
  - apply (Hany order Hperm).
  - intros Hfc.
    destruct (Hcount Hfc order Hperm) as [Ht Hp].
    destruct (Hcount Hfc order' Hperm') as [Ht' Hp'].
    subst p1 p2. rewrite Ht, Hp, Ht', Hp'.
    split; [done|]. split; [done|]. split; [done|]. split; [done|].
    intros -> ->. done.
Qed.

Lemma drained_row_counts_witness :
  writes_succeed Sample.to_csv ∧ callback_returns Sample.three_jobs ∧
  distinct_futures Sample.three_jobs ∧
  _as_completed Sample.three_jobs (worker_list Sample.three_jobs) ∧
  _as_completed Sample.three_jobs (reverse (worker_list Sample.three_jobs)) ∧
  failures_caught (worker_list Sample.three_jobs) ∧
  rows (train_log Sample.three_jobs) = [] ∧
  rows (prediction_log Sample.three_jobs) = [] ∧
  length (rows (train_log (this (start Sample.to_csv (worker_list Sample.three_jobs)
                                  (Sample.proc Sample.three_jobs)).1)))
  = sum_list_with (λ f, length (train_rows_of f))
      (filter (λ f, succeeded f = true) (worker_list Sample.three_jobs)) ∧
  sum_list_with (λ f, length (train_rows_of f))
    (filter (λ f, succeeded f = true) (worker_list Sample.three_jobs)) = 6%nat ∧
  length (rows (train_log (this (start Sample.to_csv (worker_list Sample.three_jobs)
                                  (Sample.proc Sample.three_jobs)).1)))
  = length (rows (train_log (this (start Sample.to_csv
                                     (reverse (worker_list Sample.three_jobs))
                                     (Sample.proc Sample.three_jobs)).1))).
Proof.
  split; [exact sample_writes_succeed|].
  split; [exact sample_callback_returns|].
  split; [exact sample_distinct_futures|].
  split; [exact sample_as_completed_in_order|].
  split; [exact sample_as_completed|].
  split; [exact sample_failures_caught|].
  split; [reflexivity|]. split; [reflexivity|].
  destruct (proj2 (proj2 (proj2
    (drained_row_counts Sample.to_csv (Sample.proc Sample.three_jobs)
       (worker_list Sample.three_jobs) (reverse (worker_list Sample.three_jobs))
       sample_writes_succeed sample_callback_returns sample_distinct_futures
       sample_as_completed_in_order sample_as_completed)))
    sample_failures_caught) as (_ & _ & Hsame & _ & Hfresh).
  split; [exact (proj1 (Hfresh eq_refl eq_refl))|].
  split; [vm_compute; reflexivity|exact Hsame].
Defined.

(** A second drain right after a first one: the futures that succeeded
    are still in the worker list, and their records are merged again. *)
Lemma start_again (to_csv : string → DataFrame → option exn)
    (p : Proc) (order order' : list Future) :
  writes_succeed to_csv → callback_returns (this p) →
  distinct_futures (this p) → _as_completed (this p) order →
  failures_caught order →
  let p1 := (start to_csv order p).1 in
  _as_completed (this p1) order' →
  let p2 := (start to_csv order' p1).1 in
  worker_list (this p1) = filter (λ f, succeeded f = true) (worker_list (this p)) ∧
  rows (train_log (this p1)) =
    rows (train_log (this p)) ++ concat (train_rows_of <$> order) ∧
  rows (prediction_log (this p1)) =
    rows (prediction_log (this p)) ++ concat (prediction_rows_of <$> order) ∧
  rows (train_log (this p2)) =
    rows (train_log (this p1)) ++ concat (train_rows_of <$> order') ∧
  rows (prediction_log (this p2)) =
    rows (prediction_log (this p1)) ++ concat (prediction_rows_of <$> order').
Proof.
  intros Hw Hcb Hnd Hperm Hfc p1.
  destruct (start_quiet to_csv order p Hw Hfc Hcb Hnd (as_completed_pending _ _ Hnd Hperm))
    as (q1 & Hstart & Hp & Ht & Hl & _ & Hjc).
  assert (Hq1 : p1 = q1) by (subst p1; by rewrite Hstart). rewrite Hq1. clear Hq1 p1.
  rewrite (failed_removed _ _ Hnd Hperm) in Hl.
  intros Hperm' p2.
  assert (Hnd1 : distinct_futures (this q1)).
  { unfold distinct_futures. rewrite Hl. by apply NoDup_ids_filter. }
  assert (Hcb1 : callback_returns (this q1)).
  { intros cb r H. apply (Hcb cb r). by rewrite <- Hjc. }
  assert (Hfc' : failures_caught order').
  { apply (failures_caught_perm _ (worker_list (this q1)) Hperm'). rewrite Hl.
    apply Forall_forall. intros f [Hs _]%list_elem_of_filter.
    unfold succeeded, escapes in *. by destruct (fut_result f). }
  destruct (start_quiet to_csv order' q1 Hw Hfc' Hcb1 Hnd1
              (as_completed_pending _ _ Hnd1 Hperm'))
    as (q2 & Hstart2 & Hp2 & Ht2 & _).
  assert (Hq2 : p2 = q2) by (subst p2; by rewrite Hstart2). rewrite Hq2.
  done.
Qed.

(** C1 fails on the code: a future that succeeded stays in the worker
    list, so the next [start] gets it from [_as_completed] again and
    merges the job's records a second time.  Here one job with three
    training records and two prediction records is submitted and [start]
    is called twice; nothing is submitted in between. *)
Theorem second_start_merges_again :
  let p0 := Sample.proc Sample.one_job in
  let p1 := (start Sample.to_csv (worker_list (this p0)) p0).1 in
  let p2 := (start Sample.to_csv (worker_list (this p1)) p1).1 in
  worker_list (this p1) = worker_list (this p0) ∧
  length (rows (train_log (this p1))) = 3%nat ∧
  length (rows (prediction_log (this p1))) = 2%nat ∧
  rows (train_log (this p2)) =
    rows (train_log (this p1)) ++ rows (train_log (this p1)) ∧
  rows (prediction_log (this p2)) =
    rows (prediction_log (this p1)) ++ rows (prediction_log (this p1)) ∧
  length (rows (train_log (this p2))) = 6%nat ∧
  length (rows (prediction_log (this p2))) = 4%nat.
Proof.
  intros p0 p1 p2.
  assert (Hcb : callback_returns (this p0)) by (intros cb r H; discriminate H).
  assert (Hnd : distinct_futures (this p0)).
  { unfold distinct_futures. cbn. apply NoDup_singleton. }
  assert (Hok : filter (λ f, succeeded f = true) (worker_list (this p0))
                = worker_list (this p0)).
  { change (worker_list (this p0)) with [Sample.future1].
    rewrite filter_cons_True by (vm_compute; reflexivity). done. }
  assert (Ht0 : length (concat (train_rows_of <$> worker_list (this p0))) = 3%nat)
    by (vm_compute; reflexivity).
  assert (Hp0 : length (concat (prediction_rows_of <$> worker_list (this p0))) = 2%nat)
    by (vm_compute; reflexivity).
  destruct (start_again Sample.to_csv p0 (worker_list (this p0))
              (worker_list (this p1)) sample_writes_succeed Hcb Hnd)
    as (Hl & Ht1 & Hp1 & Ht2 & Hp2).
  { unfold _as_completed. reflexivity. }
  { change (worker_list (this p0)) with [Sample.future1].
    repeat constructor. }
  { unfold _as_completed. reflexivity. }
  fold p1 in Hl, Ht1, Hp1, Ht2, Hp2. fold p2 in Ht2, Hp2.
  rewrite Hok in Hl. rewrite Hl in Ht2, Hp2.
  change (rows (train_log (this p0))) with (@nil dict) in Ht1.
  change (rows (prediction_log (this p0))) with (@nil dict) in Hp1.
  rewrite app_nil_l in Ht1, Hp1. rewrite <- Ht1 in Ht2. rewrite <- Hp1 in Hp2.
  split; [exact Hl|]. split; [by rewrite Ht1|]. split; [by rewrite Hp1|].
  split; [exact Ht2|]. split; [exact Hp2|].
  rewrite Ht2, Hp2, !length_app, Ht1, Hp1, Ht0, Hp0. split; reflexivity.
Qed.

(** ** Threads inside one job *)

Section Interleaving.

Import Threads.

Variable j : AnalyserJob.t.
Variable todo : list (Log * dict).

Lemma filter_middle {A} (P : A → Prop) `{∀ x, Decision (P x)} (l1 l2 : list A) (x : A) :
  filter P (l1 ++ x :: l2) =
    filter P l1 ++ (if decide (P x) then [x] else []) ++ filter P l2.
Proof.
  rewrite filter_app, filter_cons. by destruct (decide (P x)).
Qed.

Lemma calls_split (c : Config) (i : nat) (t : Call) :
  calls c !! i = Some t →
  calls c = take i (calls c) ++ t :: drop (S i) (calls c) ∧
  ∀ to, calls (move i t to c) =
    take i (calls c) ++ {| log := log t; data := data t; pc := to |}
      :: drop (S i) (calls c).
Proof.
  intros Hi. split.
  - by rewrite take_drop_middle.
  - intros to. unfold move. cbn [calls].
    apply insert_take_drop. by apply lookup_lt_Some in Hi.
Qed.

Lemma spawn_consistent : consistent j todo (spawn j todo).
Proof.
  unfold consistent, spawn, inside, appended. cbn [calls job locked].
  split; [|split; [|split; [|done]]].
  - rewrite <- list_fmap_compose. rewrite <- (list_fmap_id todo) at 2.
    apply list_fmap_ext. by intros _ [L d] _.
  - intros L.
    assert (Hnone : ∀ l : list (Log * dict),
      filter (λ t, log t = L ∧ (pc t = AtAppend ∨ pc t = AtRelease))
        ((λ '(L, d), {| log := L; data := d; pc := AtAcquire |}) <$> l) = []).
    { induction l as [|[L' d] l IH]; [done|].
      rewrite fmap_cons, filter_cons_False; [done|]. simpl. intros [_ [?|?]]; done. }
    rewrite Hnone. by destruct L.
  - intros L. exists []. rewrite app_nil_r. split; [done|].
    assert (Hnone : ∀ l : list (Log * dict),
      filter (λ t, log t = L ∧ (pc t = AtRelease ∨ pc t = Returned))
        ((λ '(L, d), {| log := L; data := d; pc := AtAcquire |}) <$> l) = []).
    { induction l as [|[L' d] l IH]; [done|].
      rewrite fmap_cons, filter_cons_False; [done|]. simpl. intros [_ [?|?]]; done. }
    by rewrite Hnone.
Qed.

Lemma set_lock_fields (L : Log) (b : bool) (c : Config) :
  calls (set_lock L b c) = calls c ∧ job (set_lock L b c) = job c ∧
  ∀ L', locked L' (set_lock L b c) = if decide (L' = L) then b else locked L' c.
Proof.
  destruct L; repeat split; intros []; by simpl.
Qed.

Lemma append_fields (L : Log) (job0 : AnalyserJob.t) (d : dict) :
  sequence L (append L job0 d) = sequence L job0 ++ [d] ∧
  (∀ L', L' ≠ L → sequence L' (append L job0 d) = sequence L' job0) ∧
  AnalyserJob.status (append L job0 d) = AnalyserJob.status job0 ∧
  AnalyserJob.id (append L job0 d) = AnalyserJob.id job0.
Proof.
  destruct L; repeat split; intros [] ?; by simpl.
Qed.

(** The views of a configuration before and after call [i] moves. *)
Lemma move_views (c : Config) (i : nat) (t : Call) (to : PC) (L : Log) :
  calls c !! i = Some t →
  let t' := {| log := log t; data := data t; pc := to |} in
  let Pin := λ t, log t = L ∧ (pc t = AtAppend ∨ pc t = AtRelease) in
  let Papp := λ t, log t = L ∧ (pc t = AtRelease ∨ pc t = Returned) in
  (λ t, (log t, data t)) <$> calls (move i t to c)
    = (λ t, (log t, data t)) <$> calls c ∧
  (length (inside L (move i t to c)) + (if decide (Pin t) then 1 else 0)
   = length (inside L c) + (if decide (Pin t') then 1 else 0))%nat ∧
  ∃ A B,
    appended L c = A ++ (if decide (Papp t) then [data t] else []) ++ B ∧
    appended L (move i t to c) = A ++ (if decide (Papp t') then [data t] else []) ++ B.
Proof.
  intros Hi t' Pin Papp.
  destruct (calls_split c i t Hi) as [Hc Hmove].
  unfold inside, appended. rewrite (Hmove to). fold t'.
  set (l1 := take i (calls c)) in *. set (l2 := drop (S i) (calls c)) in *.
  rewrite Hc. clearbody l1 l2. clear Hc Hmove Hi.
  split; [|split].
  - by rewrite !fmap_app, !fmap_cons.
  - fold Pin. rewrite !(filter_middle Pin), !length_app.
    destruct (decide (Pin t)), (decide (Pin t')); simpl; lia.
  - fold Papp. exists (data <$> filter Papp l1), (data <$> filter Papp l2).
    rewrite !(filter_middle Papp), !fmap_app.
    destruct (decide (Papp t)), (decide (Papp t')); done.
Qed.

Lemma step_consistent (c : Config) (i : nat) :
  consistent j todo c → consistent j todo (step i c).
Proof.
  intros (Hcalls & Hlock & Hseq & Hstatus & Hid). unfold step.
  destruct (calls c !! i) as [t|] eqn:Hi; [|done].
  destruct (pc t) eqn:Hpc.
  - (* acquire *)
    destruct (locked (log t) c) eqn:Hfree; [done|].
    destruct (set_lock_fields (log t) true (move i t AtAppend c)) as (Hsc & Hsj & Hsl).
    unfold consistent.
    split; [|split; [|split; [|by rewrite Hsj]]].
    + rewrite Hsc. by destruct (move_views c i t AtAppend (log t) Hi) as (-> & _).
    + intros L. rewrite Hsl. unfold inside. rewrite Hsc.
      destruct (move_views c i t AtAppend L Hi) as (_ & Hlen & _).
      unfold inside in Hlen. specialize (Hlock L). unfold inside in Hlock.
      cbn [log pc data] in Hlen. rewrite Hpc in Hlen.
      assert (Hl : locked L (move i t AtAppend c) = locked L c) by (by destruct L).
      rewrite Hl.
      repeat case_decide; simplify_eq; try rewrite Hfree in Hlock;
        try lia; exfalso; intuition congruence.
    + intros L. destruct (Hseq L) as (l & Hl & Hperm). exists l.
      rewrite Hsj. split; [done|]. rewrite Hperm.
      destruct (move_views c i t AtAppend L Hi) as (_ & _ & A & B & HA & HB).
      unfold appended in *. rewrite Hsc, HA, HB. cbn [log pc data]. rewrite Hpc.
      repeat case_decide; try done; exfalso; intuition congruence.
  - (* append *)
    destruct (append_fields (log t) (job (move i t AtRelease c)) (data t))
      as (Hsame & Hother & Hast & Haid).
    unfold consistent. cbn [calls job].
    split; [|split; [|split]].
    + by destruct (move_views c i t AtRelease (log t) Hi) as (-> & _).
    + intros L. unfold inside. cbn [calls].
      destruct (move_views c i t AtRelease L Hi) as (_ & Hlen & _).
      unfold inside in Hlen. specialize (Hlock L). unfold inside in Hlock.
      cbn [log pc data] in Hlen. rewrite Hpc in Hlen.
      assert (Hl : ∀ job0, locked L
        {| job := job0;
           _trainlock := _trainlock (move i t AtRelease c);
           _predlock := _predlock (move i t AtRelease c);
           calls := calls (move i t AtRelease c) |} = locked L c) by (by destruct L).
      rewrite Hl.
      repeat case_decide; simplify_eq; try lia; exfalso; intuition congruence.
    + intros L. destruct (Hseq L) as (l & Hl & Hperm).
      destruct (move_views c i t AtRelease L Hi) as (_ & _ & A & B & HA & HB).
      unfold appended in *. cbn [calls]. rewrite HA in Hperm. rewrite HB.
      cbn [log pc data] in *. rewrite Hpc in Hperm.
      destruct (decide (log t = L)) as [<-|Hne].
      * exists (l ++ [data t]). rewrite Hsame. cbn [move job]. rewrite Hl.
        split; [by rewrite app_assoc|].
        repeat case_decide; try (exfalso; intuition congruence).
        rewrite Hperm. simpl.
        symmetry. etrans; [symmetry; apply Permutation_middle|].
        apply Permutation_cons_append.
      * exists l. rewrite (Hother L) by done. cbn [move job]. split; [done|].
        repeat case_decide; try done; exfalso; intuition congruence.
    + cbn [move job] in *. by rewrite Hast, Haid.
  - (* release *)
    destruct (set_lock_fields (log t) false (move i t Returned c)) as (Hsc & Hsj & Hsl).
    unfold consistent.
    split; [|split; [|split; [|by rewrite Hsj]]].
    + rewrite Hsc. by destruct (move_views c i t Returned (log t) Hi) as (-> & _).
    + intros L. rewrite Hsl. unfold inside. rewrite Hsc.
      destruct (move_views c i t Returned L Hi) as (_ & Hlen & _).
      unfold inside in Hlen. specialize (Hlock L). unfold inside in Hlock.
      cbn [log pc data] in Hlen. rewrite Hpc in Hlen.
      assert (Hl : locked L (move i t Returned c) = locked L c) by (by destruct L).
      rewrite Hl.
      repeat case_decide; simplify_eq; try destruct (locked _ c);
        try lia; exfalso; intuition congruence.
    + intros L. destruct (Hseq L) as (l & Hl & Hperm). exists l.
      rewrite Hsj. split; [done|]. rewrite Hperm.
      destruct (move_views c i t Returned L Hi) as (_ & _ & A & B & HA & HB).
      unfold appended in *. rewrite Hsc, HA, HB. cbn [log pc data]. rewrite Hpc.
      repeat case_decide; try done; exfalso; intuition congruence.
  - (* returned *)
    done.
Qed.

Lemma run_consistent (schedule : list nat) (c : Config) :
  consistent j todo c → consistent j todo (run schedule c).
Proof.
  unfold run. revert c. induction schedule as [|i schedule IH]; intros c Hc; [done|].
  simpl. apply IH. by apply step_consistent.
Qed.


Lemma filter_none {A} (P : A → Prop) `{∀ x, Decision (P x)} (l : list A) :
  (∀ x, x ∈ l → ¬ P x) → filter P l = [].
Proof.
  induction l as [|x l IH]; [done|]. intros Hl.
  rewrite filter_cons_False by (apply Hl; by left).
  apply IH. intros y Hy. apply Hl. by right.
Qed.

Lemma remaining_move (c : Config) (i : nat) (t : Call) (to : PC) :
  calls c !! i = Some t →
  (remaining (move i t to c) + steps_left t
   = remaining c + steps_left {| log := log t; data := data t; pc := to |})%nat.
Proof.
  intros Hi. destruct (calls_split c i t Hi) as [Hc Hmove].
  unfold remaining. rewrite (Hmove to).
  rewrite Hc at 3. rewrite !sum_list_with_app. simpl. lia.
Qed.

(** A call that is not waiting for a held lock takes a step. *)
Lemma step_progress (c : Config) (i : nat) (t : Call) :
  calls c !! i = Some t → pc t ≠ Returned →
  (pc t = AtAcquire → locked (log t) c = false) →
  (remaining (step i c) < remaining c)%nat.
Proof.
  intros Hi Hpc Hfree. unfold step. rewrite Hi.
  destruct (pc t) eqn:Ht.
  - rewrite Hfree by done.
    pose proof (remaining_move c i t AtAppend Hi) as Hrem.
    unfold steps_left in Hrem. rewrite Ht in Hrem. cbn [pc] in Hrem.
    destruct (set_lock_fields (log t) true (move i t AtAppend c)) as (Hsc & _).
    unfold remaining in *. rewrite Hsc. lia.
  - pose proof (remaining_move c i t AtRelease Hi) as Hrem.
    unfold steps_left in Hrem. rewrite Ht in Hrem. cbn [pc] in Hrem.
    unfold remaining in *. cbn [calls]. lia.
  - pose proof (remaining_move c i t Returned Hi) as Hrem.
    unfold steps_left in Hrem. rewrite Ht in Hrem. cbn [pc] in Hrem.
    destruct (set_lock_fields (log t) false (move i t Returned c)) as (Hsc & _).
    unfold remaining in *. rewrite Hsc. lia.
  - done.
Qed.

(** No deadlock: while a call has not returned, some call can step. *)
Lemma some_call_steps (c : Config) :
  consistent j todo c → ¬ all_returned c →
  ∃ i, (remaining (step i c) < remaining c)%nat.
Proof.
  intros (_ & Hlock & _) Hnot. unfold all_returned in Hnot.
  destruct (decide (Exists (λ t, pc t = AtAppend ∨ pc t = AtRelease) (calls c)))
    as [Hin|Hout].
  - apply Exists_exists in Hin as (t & Ht & Hpc).
    apply list_elem_of_lookup in Ht as [i Hi]. exists i.
    apply (step_progress c i t Hi); intros Heq; rewrite Heq in Hpc;
      by destruct Hpc.
  - apply not_Forall_Exists in Hnot; [|apply _].
    apply Exists_exists in Hnot as (t & Ht & Hpc).
    apply list_elem_of_lookup in Ht as [i Hi]. exists i.
    apply (step_progress c i t Hi); [done|]. intros _.
    specialize (Hlock (log t)).
    assert (Hempty : inside (log t) c = []).
    { unfold inside. apply filter_none. intros t' Ht' [_ Hin].
      apply Hout. apply Exists_exists. by exists t'. }
    rewrite Hempty in Hlock. by destruct (locked (log t) c).
Qed.

(** From every configuration the threads can reach, some schedule lets
    every call return. *)
Lemma can_finish (c : Config) :
  consistent j todo c → ∃ rest, all_returned (run rest c).
Proof.
  remember (remaining c) as n eqn:Hn. revert c Hn.
  induction n as [n IH] using lt_wf_ind. intros c -> Hc.
  destruct (decide (Forall (λ t, pc t = Returned) (calls c))) as [Hall|Hnot].
  - by exists [].
  - destruct (some_call_steps c Hc Hnot) as [i Hi].
    destruct (IH _ Hi (step i c) eq_refl (step_consistent c i Hc)) as [rest Hrest].
    by exists (i :: rest).
Qed.
(** Once every call has returned, the records appended are those the
    calls were made with. *)
Lemma appended_all_returned (c : Config) (L : Log) :
  consistent j todo c → all_returned c → appended L c = records L todo.
Proof.
  intros (Hcalls & _) Hall. unfold all_returned in Hall.
  unfold appended, records. rewrite <- Hcalls. clear Hcalls.
  induction Hall as [|t l Ht _ IH]; [done|].
  rewrite fmap_cons.
  destruct (decide (log t = L)) as [HL|HL].
  - rewrite !filter_cons_True; [|done|by split; [|right]].
    rewrite !fmap_cons. by rewrite IH.
  - rewrite !filter_cons_False; [done|done|by intros [? _]].
Qed.

End Interleaving.

(** X5 (C8): inside one job, with any number of threads calling
    [add_to_train_log] and [add_to_prediction_log] and any interleaving of
    their steps: at most one call at a time is inside the [with] block of
    a lock; each sequence is at every moment what it was followed by the
    records of the calls that are past their append, so no append is lost
    or made twice; when all calls have returned each sequence holds every
    call's record exactly once; the calls can always all return; and the
    steps change nothing of the job but the two sequences.  A call run
    alone is the method, and the methods and the status updates are the
    only operations on a job: each method changes its own sequence only,
    a status update neither. *)
Theorem locked_appends_are_kept (j : AnalyserJob.t)
    (todo : list (Threads.Log * dict)) (schedule : list nat) :
  let c := Threads.run schedule (Threads.spawn j todo) in
  (∀ L, (length (Threads.inside L c) ≤ 1)%nat) ∧
  (∀ L, ∃ l, Threads.sequence L (Threads.job c) = Threads.sequence L j ++ l ∧
             l ≡ₚ appended L c) ∧
  (Threads.all_returned c →
   ∀ L, ∃ l, Threads.sequence L (Threads.job c) = Threads.sequence L j ++ l ∧
             l ≡ₚ Threads.records L todo) ∧
  (∃ rest, Threads.all_returned (Threads.run rest c)) ∧
  AnalyserJob.status (Threads.job c) = AnalyserJob.status j ∧
  AnalyserJob.id (Threads.job c) = AnalyserJob.id j ∧
  (∀ now neuralnet train_data extra_data,
     let '(j', data) :=
       AnalyserJob.add_to_train_log j now neuralnet train_data extra_data in
     Threads.job (Threads.run [0; 0; 0]%nat (Threads.spawn j [(Threads.TrainLog, data)]))
       = j' ∧
     AnalyserJob._prediction_data j' = AnalyserJob._prediction_data j) ∧
  (∀ now neuralnet test_set_id score extra_data j' data,
     AnalyserJob.add_to_prediction_log j now neuralnet test_set_id score extra_data
       = Ok (j', data) →
     Threads.job (Threads.run [0; 0; 0]%nat (Threads.spawn j [(Threads.PredLog, data)]))
       = j' ∧
     AnalyserJob._train_data j' = AnalyserJob._train_data j) ∧
  (∀ s, AnalyserJob._train_data (AnalyserJob.set_status j s) = AnalyserJob._train_data j ∧
        AnalyserJob._prediction_data (AnalyserJob.set_status j s)
          = AnalyserJob._prediction_data j).
Proof.
  intros c.
  assert (Hc : consistent j todo c).
  { apply run_consistent, spawn_consistent. }
  pose proof Hc as (_ & Hlock & Hseq & Hstatus & Hid).
  split; [|split; [|split; [|split; [|split; [|split; [|split; [|split]]]]]]].
  - intros L. rewrite (Hlock L). destruct (Threads.locked L c); lia.
  - exact Hseq.
  - intros Hall L. destruct (Hseq L) as (l & Hl & Hperm). exists l.
    split; [done|]. by rewrite <- (appended_all_returned j todo c L Hc Hall).
  - by apply (can_finish j todo).
  - exact Hstatus.
  - exact Hid.
  - intros now neuralnet train_data extra_data. simpl. by destruct j.
  - intros now neuralnet test_set_id score extra_data j' data Hcall.
    apply add_to_prediction_log_inv in Hcall as [_ ->]. simpl. by destruct j.
  - done.
Qed.

Lemma locked_appends_are_kept_witness :
  let todo := [(Threads.TrainLog, ({[ "epoch" := VInt 0 ]} : dict));
               (Threads.PredLog, ({[ "label" := VStr "__totals__" ]} : dict));
               (Threads.TrainLog, ({[ "epoch" := VInt 1 ]} : dict))] in
  let c := Threads.run [0; 2; 1; 0; 1; 0; 2; 1; 2; 2]%nat
             (Threads.spawn Sample.job todo) in
  Threads.all_returned c ∧
  ∀ L, ∃ l, Threads.sequence L (Threads.job c) = Threads.sequence L Sample.job ++ l ∧
            l ≡ₚ Threads.records L todo.
Proof.
  intros todo c.
  assert (Hall : Threads.all_returned c).
  { unfold Threads.all_returned. vm_compute. repeat constructor. }
  split; [exact Hall|].
  exact (proj1 (proj2 (proj2
    (locked_appends_are_kept Sample.job todo [0; 2; 1; 0; 1; 0; 2; 1; 2; 2]%nat)))
    Hall).
Defined.

(** ** Score reports whose arrays are too short *)

Section ShortArrays.

Import AnalyserJob.

Variables (now : Z) (neuralnet : Classifier) (test_set_id : value).
Variable score : ScoreReport.

Lemma index_inv (l : list value) (i : nat) :
  (∀ v, index l i = Ok v → (i < length l)%nat) ∧
  (∀ e, index l i = Raise e → e = IndexError ∧ (length l ≤ i)%nat).
Proof.
  unfold index. destruct (l !! i) as [v|] eqn:Hi; split; try done.
  - intros _ _. by apply lookup_lt_Some in Hi.
  - intros e [= <-]. split; [done|]. by apply lookup_ge_None in Hi.
Qed.

Lemma label_base_cols_inv (i : nat) :
  (∀ base_cols, label_base_cols now neuralnet test_set_id score i = Ok base_cols →
     (i < length (precision score))%nat ∧ (i < length (recall score))%nat ∧
     (i < length (f1 score))%nat ∧ (i < length (labels score))%nat ∧
     (i < length (support score))%nat) ∧
  (∀ e, label_base_cols now neuralnet test_set_id score i = Raise e → e = IndexError).
Proof.
  unfold label_base_cols.
  destruct (index_inv (precision score) i) as [Hp Hp'].
  destruct (index_inv (recall score) i) as [Hr Hr'].
  destruct (index_inv (f1 score) i) as [Hf Hf'].
  destruct (index_inv (labels score) i) as [Hl Hl'].
  destruct (index_inv (support score) i) as [Hs Hs'].
  destruct (index (precision score) i) as [p|e]; cbn;
    [|split; [done|]; intros ? [= <-]; by apply Hp'].
  destruct (index (recall score) i) as [r|e]; cbn;
    [|split; [done|]; intros ? [= <-]; by apply Hr'].
  destruct (index (f1 score) i) as [f|e]; cbn;
    [|split; [done|]; intros ? [= <-]; by apply Hf'].
  destruct (index (labels score) i) as [l|e]; cbn;
    [|split; [done|]; intros ? [= <-]; by apply Hl'].
  destruct (index (support score) i) as [s|e]; cbn;
    [|split; [done|]; intros ? [= <-]; by apply Hs'].
  split; [|done]. intros _ _. eauto 10.
Qed.

Lemma label_rows_inv (hyper_parameters extra : dict) (idxs : list nat) :
  (∀ rows, label_rows now neuralnet test_set_id score hyper_parameters extra idxs
             = Ok rows →
     Forall (λ i, (i < length (precision score))%nat ∧ (i < length (recall score))%nat ∧
                  (i < length (f1 score))%nat ∧ (i < length (support score))%nat) idxs) ∧
  (∀ e, label_rows now neuralnet test_set_id score hyper_parameters extra idxs
          = Raise e → e = IndexError).
Proof.
  induction idxs as [|i idxs [IHok IHraise]]; [by split|].
  cbn [label_rows].
  destruct (label_base_cols_inv i) as [Hok Hraise].
  destruct (label_base_cols now neuralnet test_set_id score i) as [base_cols|e]; cbn;
    [|split; [done|]; intros ? [= <-]; by apply Hraise].
  destruct (label_rows now neuralnet test_set_id score hyper_parameters extra idxs)
    as [rest|e]; cbn; [|split; [done|]; intros ? [= <-]; by apply IHraise].
  split; [|done]. intros _ _. constructor; [|by eapply IHok].
  destruct (Hok base_cols eq_refl) as (? & ? & ? & _ & ?). done.
Qed.

Lemma seq_bound (n m : nat) :
  Forall (λ i, (i < m)%nat) (seq 0 n) → (n ≤ m)%nat.
Proof.
  intros Hall. destruct n as [|n]; [lia|].
  rewrite Forall_forall in Hall. specialize (Hall n).
  assert (n ∈ seq 0 (S n)) by (apply elem_of_seq; lia). specialize (Hall H). lia.
Qed.

(** [add_to_prediction_log] returns exactly for the reports whose
    per-label arrays reach as far as the labels. *)
Lemma add_to_prediction_log_returns (job : t) (extra_data : option dict) :
  (∀ job' data,
     add_to_prediction_log job now neuralnet test_set_id score extra_data
       = Ok (job', data) → per_label_arrays score) ∧
  (∀ e, add_to_prediction_log job now neuralnet test_set_id score extra_data
          = Raise e → e = IndexError ∧ ¬ per_label_arrays score).
Proof.
  destruct (label_rows_inv (get_hyperparameters neuralnet) (or_empty extra_data)
              (seq 0 (length (labels score)))) as [Hok Hraise].
  assert (Hshape : ∀ rows,
    label_rows now neuralnet test_set_id score (get_hyperparameters neuralnet)
      (or_empty extra_data) (seq 0 (length (labels score))) = Ok rows →
    per_label_arrays score).
  { intros rows Hrows. specialize (Hok rows Hrows).
    repeat split; apply seq_bound; eapply Forall_impl; try exact Hok;
      intros i (? & ? & ? & ?); done. }
  split.
  - intros job' data. unfold add_to_prediction_log.
    destruct (label_rows _ _ _ _ _ _ _) as [rows|e] eqn:Hrows; [|done].
    intros _. by apply (Hshape rows).
  - intros e Hcall. split.
    + revert Hcall. unfold add_to_prediction_log.
      destruct (label_rows _ _ _ _ _ _ _) as [rows|e'] eqn:Hrows; [done|].
      cbn. intros [= <-]. by apply Hraise.
    + intros Hgood. by rewrite (add_to_prediction_log_ok _ _ _ _ _ _ Hgood) in Hcall.
Qed.

End ShortArrays.

(** ** The job runner *)

Section JobRunner.

Context {ndarray : Type}.
Variable score_report : ndarray → ndarray → list value → result ScoreReport.
Variable clock : nat → Z.

Implicit Types (neuralnet : NeuralNet ndarray) (w : Worker).

Lemma with_train_fields (job0 : AnalyserJob.t) (records : list dict) :
  AnalyserJob._train_data (with_train job0 records)
    = AnalyserJob._train_data job0 ++ records ∧
  AnalyserJob._prediction_data (with_train job0 records)
    = AnalyserJob._prediction_data job0 ∧
  AnalyserJob.status (with_train job0 records) = AnalyserJob.status job0 ∧
  AnalyserJob.id (with_train job0 records) = AnalyserJob.id job0.
Proof.
  unfold with_train. revert job0.
  induction records as [|r records IH]; intros job0; simpl.
  - by rewrite app_nil_r.
  - destruct (IH (AnalyserJob.append_train job0 r)) as (-> & -> & -> & ->).
    simpl. by rewrite <- app_assoc.
Qed.

Lemma with_predictions_fields (job0 : AnalyserJob.t) (records : list dict) :
  AnalyserJob._prediction_data (with_predictions job0 records)
    = AnalyserJob._prediction_data job0 ++ records ∧
  AnalyserJob._train_data (with_predictions job0 records)
    = AnalyserJob._train_data job0 ∧
  AnalyserJob.status (with_predictions job0 records) = AnalyserJob.status job0 ∧
  AnalyserJob.id (with_predictions job0 records) = AnalyserJob.id job0.
Proof.
  unfold with_predictions. revert job0.
  induction records as [|r records IH]; intros job0; simpl.
  - by rewrite app_nil_r.
  - destruct (IH (AnalyserJob.append_prediction job0 r)) as (-> & -> & -> & ->).
    simpl. by rewrite <- app_assoc.
Qed.

(** The callbacks of [train]: one record per iteration, in order; the
    loop never raises. *)
Lemma train_callbacks neuralnet (iterations : list dict) w :
  ∃ records,
    for_each iterations (job_add_to_train_log clock neuralnet) w
      = ({| job := with_train (job w) records;
            clock_reads := clock_reads w + length iterations |}, Ok ()) ∧
    Forall2 (is_train_record neuralnet) records iterations.
Proof.
  revert w. induction iterations as [|it iterations IH]; intros w.
  - exists []. split; [|constructor]. simpl. destruct w. simpl.
    by rewrite Nat.add_0_r.
  - cbn [for_each]. unfold mbind at 1. unfold SE_bind at 1.
    unfold job_add_to_train_log at 1. unfold mbind, SE_bind, now, modify.
    cbn [job clock_reads fst].
    destruct (IH {| job := AnalyserJob.append_train (job w)
                             (AnalyserJob.train_record (clock (clock_reads w))
                                neuralnet it None);
                    clock_reads := S (clock_reads w) |})
      as (records & Hloop & Hrecords).
    exists (AnalyserJob.train_record (clock (clock_reads w)) neuralnet it None
            :: records).
    split.
    + unfold AnalyserJob.add_to_train_log. cbn [fst].
      fold (for_each (S:=Worker) iterations (job_add_to_train_log clock neuralnet)).
      rewrite Hloop. cbn [job clock_reads length with_train foldl].
      do 2 f_equal. lia.
    + constructor; [by eexists|done].
Qed.

(** One pass of the loop over the test sets. *)
Lemma score_and_log_step neuralnet (item : value * (ndarray * ndarray)) w :
  score_and_log score_report clock neuralnet item w =
    match score_of score_report neuralnet item.2 with
    | Raise e => (w, Raise e)
    | Ok score =>
        match AnalyserJob.add_to_prediction_log (job w) (clock (clock_reads w))
                neuralnet item.1 score None with
        | Ok (job', _) => ({| job := job'; clock_reads := S (clock_reads w) |}, Ok ())
        | Raise e => ({| job := job w; clock_reads := S (clock_reads w) |}, Raise e)
        end
    end.
Proof.
  destruct item as [test_set_id [x y]]. unfold score_and_log, score_of. cbn [fst snd].
  unfold mbind at 1 2. unfold SE_bind at 1 2. unfold lift.
  destruct (predict neuralnet x) as [predicted|e]; [|done]. cbn.
  destruct (score_report y predicted (nn_labels neuralnet)) as [score|e]; [|done].
  unfold job_add_to_prediction_log, mbind, SE_bind, now, get, lift, modify.
  cbn [job clock_reads].
  destruct (AnalyserJob.add_to_prediction_log _ _ _ _ _ _) as [[job' d]|e]; done.
Qed.

(** The loop over the test sets: one totals record per test set, in
    order, up to the first test set for which prediction, scoring or
    logging raises. *)
Lemma prediction_loop neuralnet (test_sets : list (value * (ndarray * ndarray))) w :
  ∃ records w' r,
    for_each test_sets (score_and_log score_report clock neuralnet) w = (w', r) ∧
    job w' = with_predictions (job w) records ∧
    Forall2 (is_totals_record score_report neuralnet) records
      (take (length records) test_sets) ∧
    match r with
    | Ok _ => length records = length test_sets
    | Raise _ => (length records < length test_sets)%nat
    end.
Proof.
  revert w. induction test_sets as [|item test_sets IH]; intros w.
  - exists [], w, (Ok ()). repeat split. constructor.
  - cbn [for_each]. unfold mbind at 1. unfold SE_bind at 1.
    rewrite score_and_log_step.
    destruct (score_of score_report neuralnet item.2) as [score|e] eqn:Hscore.
    + destruct (AnalyserJob.add_to_prediction_log (job w) (clock (clock_reads w))
                  neuralnet item.1 score None) as [[job' d]|e] eqn:Hlog.
      * destruct (add_to_prediction_log_inv _ _ _ _ _ _ _ _ Hlog) as [Hd Hjob].
        destruct (IH {| job := job'; clock_reads := S (clock_reads w) |})
          as (records & w' & r & Hloop & Hw' & Hrec & Hr).
        exists (d :: records), w', r. rewrite Hloop. cbn [job] in Hw'.
        split; [done|]. split; [by rewrite Hw', Hjob|]. split.
        -- cbn [length take]. constructor; [|done].
           exists (clock (clock_reads w)), score. split; [done|]. split; [|done].
           destruct (add_to_prediction_log_returns (clock (clock_reads w)) neuralnet
                       item.1 score (job w) None) as [Hgood _].
           by apply (Hgood job' d).
        -- destruct r; cbn [length]; lia.
      * exists [], {| job := job w; clock_reads := S (clock_reads w) |}, (Raise e).
        repeat split; [constructor|cbn [length]; lia].
    + exists [], w, (Raise e). repeat split; [constructor|cbn [length]; lia].
Qed.

(** The outcome of the job body by the stage it reaches. *)
Lemma run_job_cases (neuralnet_class : ndarray → ndarray → dict → result (NeuralNet ndarray))
    (train_set : ndarray * ndarray) (test_sets : list (value * (ndarray * ndarray)))
    (kvargs : dict) (job0 : AnalyserJob.t) (n : nat) w (r : result (list dict * list dict)) :
  run_job score_report clock neuralnet_class train_set test_sets kvargs
    {| job := job0; clock_reads := n |} = (w, r) →
  match neuralnet_class train_set.1 train_set.2 kvargs with
  | Raise e => job w = job0 ∧ r = Raise e
  | Ok neuralnet =>
      ∃ trained,
        Forall2 (is_train_record neuralnet) trained (train_iterations neuralnet) ∧
        let job1 := with_train (AnalyserJob.set_status job0 training_started) trained in
        match train_raises neuralnet with
        | Some e => job w = job1 ∧ r = Raise e
        | None =>
            ∃ scored,
              Forall2 (is_totals_record score_report neuralnet) scored
                (take (length scored) test_sets) ∧
              let job2 :=
                with_predictions (AnalyserJob.set_status job1 prediction_started) scored in
              match r with
              | Ok (td, pd) =>
                  length scored = length test_sets ∧
                  job w = AnalyserJob.set_status job2 completed ∧
                  td = AnalyserJob._train_data job2 ∧
                  pd = AnalyserJob._prediction_data job2
              | Raise _ =>
                  (length scored < length test_sets)%nat ∧ job w = job2
              end
        end
  end.
Proof.
  unfold run_job.
  destruct train_set as [train_x train_y]. cbn [fst snd].
  unfold mbind at 1. unfold SE_bind at 1. unfold lift at 1.
  destruct (neuralnet_class train_x train_y kvargs) as [neuralnet|e];
    [|by intros [= <- <-]].
  unfold mbind at 1 2. unfold SE_bind at 1 2.
  unfold set_status at 1. unfold modify at 1. cbn [job clock_reads].
  unfold train. unfold mbind at 1. unfold SE_bind at 1.
  destruct (train_callbacks neuralnet (train_iterations neuralnet)
              {| job := AnalyserJob.set_status job0 training_started; clock_reads := n |})
    as (trained & -> & Htrained).
  cbn [job clock_reads].
  intros Hrun. exists trained. split; [done|]. cbv zeta.
  destruct (train_raises neuralnet) as [e|].
  - cbn in Hrun. by injection Hrun as <- <-.
  - unfold mret at 1 in Hrun. unfold SE_ret at 1 in Hrun.
    unfold mbind at 1 2 in Hrun. unfold SE_bind at 1 2 in Hrun.
    unfold set_status at 1 in Hrun. unfold modify at 1 in Hrun.
    cbn [job clock_reads] in Hrun.
    change (for_each test_sets _) with
      (for_each test_sets (score_and_log score_report clock neuralnet)) in Hrun.
    destruct (prediction_loop neuralnet test_sets
                {| job := AnalyserJob.set_status
                            (with_train (AnalyserJob.set_status job0 training_started)
                               trained) prediction_started;
                   clock_reads := n + length (train_iterations neuralnet) |})
      as (scored & w' & r' & Hloop & Hw' & Hscored & Hr').
    rewrite Hloop in Hrun. cbn [job] in Hw'.
    exists scored. split; [done|].
    destruct r' as [[]|e].
    + cbn in Hrun. injection Hrun as <- <-. cbn [job]. by rewrite Hw'.
    + injection Hrun as <- <-. done.
Qed.
End JobRunner.

(** X6: a job that returns.  When [_start_job] returns a pair, the class
    constructor and the training returned, the pair holds one training
    record per callback of [train], in order, and one totals record per
    test set, in the order of [test_sets.items()]; and the worker's cache
    has the job under its id in the analyser's job list, with status
    [completed] and the two sequences returned. *)
Theorem start_job_returns {ndarray : Type}
    (score_report : ndarray → ndarray → list value → result ScoreReport)
    (clock : nat → Z) (analyser_cache : gmap string t) (uuid analyser_id : string)
    (neuralnet_class : ndarray → ndarray → dict → result (NeuralNet ndarray))
    (train_set : ndarray * ndarray) (test_sets : list (value * (ndarray * ndarray)))
    (kvargs : dict) (cache' : gmap string t) (td pd : list dict) :
  _start_job score_report clock analyser_cache uuid analyser_id neuralnet_class
    train_set test_sets kvargs = (cache', Ok (td, pd)) →
  ∃ neuralnet analyser job,
    neuralnet_class train_set.1 train_set.2 kvargs = Ok neuralnet ∧
    train_raises neuralnet = None ∧
    Forall2 (is_train_record neuralnet) td (train_iterations neuralnet) ∧
    Forall2 (is_totals_record score_report neuralnet) pd test_sets ∧
    length td = length (train_iterations neuralnet) ∧
    length pd = length test_sets ∧
    analyser_cache !! analyser_id = Some analyser ∧
    cache' = registered analyser_cache analyser_id analyser job ∧
    AnalyserJob.id job = uuid ∧
    AnalyserJob.status job = completed ∧
    AnalyserJob._train_data job = td ∧
    AnalyserJob._prediction_data job = pd.
Proof.
  unfold _start_job.
  destruct (analyser_cache !! analyser_id) as [analyser|] eqn:Hcache; [|done].
  destruct (run_job _ _ _ _ _ _ _) as [w r] eqn:Hrun.
  intros [= <- ->].
  apply run_job_cases in Hrun.
  destruct (neuralnet_class train_set.1 train_set.2 kvargs) as [neuralnet|e];
    [|by destruct Hrun].
  destruct Hrun as (trained & Htrained & Hrun). cbv zeta in Hrun.
  destruct (train_raises neuralnet) as [e|] eqn:Hraises; [by destruct Hrun|].
  destruct Hrun as (scored & Hscored & Hlen & Hjob & -> & ->).
  rewrite Hlen, firstn_all in Hscored.
  destruct (with_predictions_fields
              (AnalyserJob.set_status
                 (with_train (AnalyserJob.set_status (AnalyserJob.__init__ uuid)
                                training_started) trained) prediction_started) scored)
    as (Hp & Ht & _ & Hid).
  destruct (with_train_fields
              (AnalyserJob.set_status (AnalyserJob.__init__ uuid) training_started)
              trained) as (Ht' & Hp' & _ & Hid').
  cbn [AnalyserJob.set_status AnalyserJob._train_data AnalyserJob._prediction_data
       AnalyserJob.id AnalyserJob.__init__] in Hp, Ht, Hid, Ht', Hp', Hid'.
  rewrite Ht' in Ht. rewrite Hp' in Hp. rewrite Hid' in Hid.
  rewrite app_nil_l in Hp, Ht.
  exists neuralnet, analyser, (job w). rewrite Hjob. unfold registered.
  cbn [AnalyserJob.set_status AnalyserJob.id AnalyserJob.status
       AnalyserJob._train_data AnalyserJob._prediction_data].
  rewrite Hp, Ht, Hid.
  split; [done|]. split; [done|]. split; [done|]. split; [done|].
  split; [by apply Forall2_length in Htrained|].
  split; [by apply Forall2_length in Hscored|].
  done.
Qed.

Lemma start_job_returns_witness :
  ∃ cache' td pd,
    _start_job Sample.score_report Sample.clock Sample.analyser0.2 "job-1" "analyser-1"
      Sample.good_class Sample.train_set Sample.test_sets ∅ = (cache', Ok (td, pd)) ∧
    length td = 3%nat ∧ length pd = 2%nat.
Proof.
  assert (Hs : succeeded Sample.future1 = true) by (vm_compute; reflexivity).
  destruct (rows_of_succeeded Sample.future1 Hs) as (_ & td & pd & Hres & _).
  unfold Sample.future1 in Hres. cbn [fut_result] in Hres.
  exists (_start_job Sample.score_report Sample.clock Sample.analyser0.2 "job-1"
            "analyser-1" Sample.good_class Sample.train_set Sample.test_sets ∅).1, td, pd.
  assert (Hcall :
    _start_job Sample.score_report Sample.clock Sample.analyser0.2 "job-1" "analyser-1"
      Sample.good_class Sample.train_set Sample.test_sets ∅
    = ((_start_job Sample.score_report Sample.clock Sample.analyser0.2 "job-1"
          "analyser-1" Sample.good_class Sample.train_set Sample.test_sets ∅).1,
       Ok (td, pd))).
  { rewrite <- Hres. apply surjective_pairing. }
  split; [exact Hcall|].
  destruct (start_job_returns _ _ _ _ _ _ _ _ _ _ _ _ Hcall)
    as (neuralnet & analyser & job & Hclass & _ & _ & _ & Htd & Hpd & _).
  injection Hclass as <-. split; [exact Htd|exact Hpd].
Defined.





(** X4: short per-label arrays.  [add_to_prediction_log] returns exactly
    for the score reports whose [precision], [recall], [f1] and [support]
    arrays are at least as long as [labels]; for every other report it
    raises [IndexError], so that nothing is appended.  A report without
    labels is always accepted. *)
Theorem add_to_prediction_log_short_arrays (job : AnalyserJob.t) (now : Z)
    (neuralnet : Classifier) (test_set_id : value) (score : ScoreReport)
    (extra_data : option dict) :
  let call := AnalyserJob.add_to_prediction_log job now neuralnet test_set_id score
                extra_data in
  (per_label_arrays score ↔ is_ok call = true) ∧
  (¬ per_label_arrays score ↔ call = Raise IndexError) ∧
  (labels score = [] → is_ok call = true).
Proof.
  intros call.
  destruct (add_to_prediction_log_returns now neuralnet test_set_id score job extra_data)
    as [Hok Hraise]. fold call in Hok, Hraise.
  assert (Hgood : per_label_arrays score → is_ok call = true).
  { intros Hshape. subst call. by rewrite add_to_prediction_log_ok. }
  split; [|split].
  - split; [exact Hgood|]. destruct call as [[job' data]|e] eqn:Hcall; [|done].
    intros _. by apply (Hok job' data).
  - split.
    + intros Hbad. destruct call as [[job' data]|e] eqn:Hcall.
      * exfalso. by apply Hbad, (Hok job' data).
      * by destruct (Hraise e eq_refl) as [-> _].
    + intros Hcall Hshape. apply Hgood in Hshape. by rewrite Hcall in Hshape.
  - intros Hnil. apply Hgood. unfold per_label_arrays. rewrite Hnil. simpl. lia.
Qed.

(** ** Persistence and bookkeeping of the drain *)

Section Persistence.

Variable to_csv : string → DataFrame → option exn.

(** [save_logs] spelled out. *)
Lemma save_logs_eq (p : Proc) :
  save_logs to_csv p =
    let self := this p in
    let pred_file := path_join (log_dir self) "pred.csv" in
    let train_file := path_join (log_dir self) "train.csv" in
    match to_csv pred_file (prediction_log self) with
    | Some e => (p, Raise e)
    | None =>
        match to_csv train_file (train_log self) with
        | Some e =>
            ({| this := self; out := out p ++ [ToCsv pred_file (prediction_log self)] |},
             Raise e)
        | None =>
            ({| this := self;
                out := (out p ++ [ToCsv pred_file (prediction_log self)])
                       ++ [ToCsv train_file (train_log self)] |}, Ok ())
        end
    end.
Proof.
  unfold save_logs, DataFrame_to_csv, mbind, SE_bind, get, emit, modify, raise.
  cbv zeta.
  destruct (to_csv _ (prediction_log (this p))); [done|]. cbn [this out].
  by destruct (to_csv _ (train_log (this p))).
Qed.

(** Whatever the callback and the writer do, a future that succeeded
    leaves the analyser with the job's records merged and nothing else
    changed. *)
Lemma on_future_ok_this (future : Future) (td pd : list dict) (p : Proc) :
  fut_result future = Ok (td, pd) →
  this (on_future to_csv future p).1 = merged td pd (this p).
Proof.
  intros Hres. rewrite (on_future_ok_eq to_csv future td pd p Hres).
  unfold mbind, SE_bind.
  destruct (job_completed (this p)) as [cb|].
  - unfold call_job_completed, mbind, SE_bind, emit, modify, raise, mret, SE_ret.
    cbn [this out]. destruct (cb _); [done|].
    rewrite save_logs_eq. cbv zeta. cbn [this out].
    destruct (to_csv _ _); [done|]. by destruct (to_csv _ _).
  - unfold mret, SE_ret. rewrite save_logs_eq. cbv zeta. cbn [this out].
    destruct (to_csv _ _); [done|]. by destruct (to_csv _ _).
Qed.

(** What a future that succeeded adds to the output when nothing
    raises: the callback's call, then the two files. *)
Lemma on_future_ok_out (future : Future) (td pd : list dict) (p : Proc) :
  writes_succeed to_csv → callback_returns (this p) →
  fut_result future = Ok (td, pd) →
  on_future to_csv future p =
    ({| this := merged td pd (this p);
        out := out p
               ++ match job_completed (this p) with
                  | Some _ => [JobCompleted {| train_data := td; prediction_data := pd |}]
                  | None => []
                  end
               ++ [ToCsv (path_join (log_dir (this p)) "pred.csv")
                     (prediction_log (merged td pd (this p)));
                   ToCsv (path_join (log_dir (this p)) "train.csv")
                     (train_log (merged td pd (this p)))] |}, Ok ()).
Proof.
  intros Hw Hcb Hres. rewrite (on_future_ok_eq to_csv future td pd p Hres).
  unfold mbind, SE_bind.
  destruct (merged_fields td pd (this p)) as (_ & _ & Hld & _).
  destruct (job_completed (this p)) as [cb|] eqn:Hjc.
  - unfold call_job_completed, mbind, SE_bind, emit, modify, raise, mret, SE_ret.
    cbn [this out]. rewrite (Hcb cb _ Hjc).
    rewrite save_logs_eq. cbv zeta. cbn [this out]. rewrite !Hw, Hld.
    by rewrite <- !app_assoc.
  - unfold mret, SE_ret. rewrite save_logs_eq. cbv zeta. cbn [this out].
    rewrite !Hw, Hld. by rewrite <- !app_assoc.
Qed.

Lemma list_remove_keeps (future : Future) (l l' : list Future) :
  list_remove future l = Some l' →
  (∀ g, g ∈ l' → g ∈ l) ∧ (NoDup (fut_id <$> l) → NoDup (fut_id <$> l')).
Proof.
  revert l'. induction l as [|f l IH]; intros l'; cbn [list_remove]; [done|].
  destruct (decide (fut_id f = fut_id future)).
  - intros [= <-]. split; [by right|]. rewrite fmap_cons. by intros [_ ?]%NoDup_cons.
  - destruct (list_remove future l) as [k|]; [|done]. cbn. intros [= <-].
    destruct (IH k eq_refl) as [Hin Hnd]. split.
    + intros g [->|Hg]%elem_of_cons; [by left|]. right. by apply Hin.
    + rewrite !fmap_cons. intros [Hf Hl]%NoDup_cons. apply NoDup_cons.
      split; [|by apply Hnd].
      intros (g & Hid & Hg)%list_elem_of_fmap. apply Hf.
      rewrite Hid. apply list_elem_of_fmap_2. by apply Hin.
Qed.

(** One pass of the loop of [start] makes no future and forgets at most
    the one it handles. *)
Lemma on_future_futures (future : Future) (p : Proc) :
  futures_in_order (this p) → futures_in_order (this (on_future to_csv future p).1).
Proof.
  intros [Hnd Hall]. unfold futures_in_order.
  destruct (fut_result future) as [[td pd]|exc] eqn:Hres.
  - rewrite (on_future_ok_this future td pd p Hres). unfold merged. by cbn.
  - destruct (is_Exception exc) eqn:Hexc;
      [|by rewrite (on_future_escape to_csv future exc p Hres Hexc)].
    rewrite (on_future_raise to_csv future exc p Hres Hexc).
    destruct (list_remove future (worker_list (this p))) as [l|] eqn:Hl; [|done].
    destruct (list_remove_keeps future _ l Hl) as [Hin Hnd'].
    cbn. split; [by apply Hnd'|].
    apply Forall_forall. intros g Hg. rewrite Forall_forall in Hall.
    by apply Hall, Hin.
Qed.

Lemma start_futures (order : list Future) (p : Proc) :
  futures_in_order (this p) → futures_in_order (this (start to_csv order p).1).
Proof.
  unfold start. revert p. induction order as [|f order IH]; intros p Hp; [done|].
  cbn [for_each]. unfold mbind, SE_bind.
  pose proof (on_future_futures f p Hp) as Hp1.
  destruct (on_future to_csv f p) as [p1 [[]|e]]; [|done].
  by apply IH.
Qed.

(** A pass that raises ends the drain. *)
Lemma start_stops (future : Future) (rest : list Future) (p : Proc) (e : exn) :
  (on_future to_csv future p).2 = Raise e →
  start to_csv (future :: rest) p = on_future to_csv future p.
Proof.
  intros Hr. unfold start. cbn [for_each]. unfold mbind, SE_bind.
  destruct (on_future to_csv future p) as [p1 r]. cbn [snd] in Hr. by rewrite Hr.
Qed.

End Persistence.

Section DrainOutput.

Variable to_csv : string → DataFrame → option exn.

Lemma pending_after_failure (future : Future) (order : list Future) (self : t) :
  NoDup (fut_id <$> worker_list self) → pending (future :: order) self →
  let l := filter (λ g, fut_id g ≠ fut_id future) (worker_list self) in
  NoDup (fut_id <$> l) ∧ pending order (set_worker_list self l).
Proof.
  intros Hnd [Hord Hin] l. rewrite fmap_cons in Hord.
  apply NoDup_cons in Hord as [Hf Hord].
  split; [by apply NoDup_ids_filter|]. split; [done|].
  cbn [worker_list set_worker_list]. intros g Hg.
  assert (Hgf : fut_id g ≠ fut_id future).
  { intros Heq. apply Hf. rewrite <- Heq. by apply list_elem_of_fmap_2. }
  assert (Hgin : fut_id g ∈ fut_id <$> worker_list self) by (apply Hin; by right).
  apply list_elem_of_fmap in Hgin as (g' & Hid & Hg').
  apply list_elem_of_fmap. exists g'. split; [done|].
  apply list_elem_of_filter. split; [congruence|done].
Qed.

Lemma saved_files_alike (a b : t) :
  same_logs a b → log_dir a = log_dir b → saved_files a = saved_files b.
Proof. intros [Hp Ht] Hd. unfold saved_files. by rewrite Hp, Ht, Hd. Qed.

Lemma start_quiet_out (order : list Future) (p : Proc) :
  writes_succeed to_csv → failures_caught order → callback_returns (this p) →
  NoDup (fut_id <$> worker_list (this p)) → pending order (this p) →
  let p' := (start to_csv order p).1 in
  let ok := filter (λ f, succeeded f = true) order in
  callbacks (out p') =
    callbacks (out p) ++
    match job_completed (this p) with
    | Some _ => concat (batch_of <$> order)
    | None => []
    end ∧
  log_dir (this p') = log_dir (this p) ∧
  (ok = [] → same_logs (this p') (this p)) ∧
  ∃ ws, writes (out p') = writes (out p) ++ ws ∧
        length ws = (2 * length ok)%nat ∧
        (ok ≠ [] → ∃ ws', ws = ws' ++ saved_files (this p')).
Proof.
  intros Hw Hfc. unfold start. revert p.
  induction order as [|f order IH]; intros p Hcb Hnd Hpend; cbn [for_each];
    [|apply Forall_cons in Hfc as [Hf0 Hfc]; specialize (IH Hfc)].
  - cbn.
    split; [destruct (job_completed (this p)); by rewrite app_nil_r|].
    split; [done|]. split; [done|].
    exists []. by rewrite app_nil_r.
  - unfold mbind, SE_bind.
    destruct (succeeded f) eqn:Hs.
    + destruct (rows_of_succeeded f Hs) as (_ & td & pd & Hres & _).
      rewrite (on_future_ok_out to_csv f td pd p Hw Hcb Hres).
      destruct (merged_fields td pd (this p)) as (Hwl & Hjc & Hld & _).
      set (p1 := {| this := merged td pd (this p); out := _ |}).
      destruct (IH p1) as (Hcalls & Hdir & Hsame & ws & Hws & Hlen & Hlast).
      * intros cb r Hcbq. apply (Hcb cb r). cbn [this p1] in Hcbq.
        by rewrite Hjc in Hcbq.
      * cbn [this p1]. by rewrite Hwl.
      * destruct Hpend as [Hord Hin]. rewrite fmap_cons in Hord.
        apply NoDup_cons in Hord as [_ Hord]. split; [done|].
        cbn [this p1]. rewrite Hwl. intros g Hg. apply Hin. by right.
      * assert (Hc1 : callbacks (out p1) =
          callbacks (out p) ++
          match job_completed (this p) with
          | Some _ => batch_of f
          | None => []
          end).
        { unfold callbacks, batch_of. cbn [out p1]. rewrite Hres, !omap_app.
          destruct (job_completed (this p)); cbn; by rewrite ?app_nil_r. }
        assert (Hw1 : writes (out p1) = writes (out p) ++ saved_files (this p1)).
        { unfold writes, saved_files. cbn [out this p1]. rewrite !omap_app, Hld.
          by destruct (job_completed (this p)). }
        cbn [fst]. rewrite filter_cons_True by done.
        rewrite Hcalls, Hdir, Hws, Hc1, Hw1. cbn [this p1]. rewrite Hjc, Hld.
        split.
        { rewrite fmap_cons. cbn [concat].
          destruct (job_completed (this p)); by rewrite <- ?app_assoc, ?app_nil_r. }
        split; [done|]. split; [done|].
        exists (saved_files (merged td pd (this p)) ++ ws).
        split; [by rewrite <- app_assoc|].
        split; [rewrite length_app; cbn [length saved_files]; lia|].
        intros _.
        destruct (filter (λ f0, succeeded f0 = true) order) as [|g ok] eqn:Hok.
        -- exists []. cbn [length] in Hlen. destruct ws; [|done].
           rewrite app_nil_r, app_nil_l. symmetry. apply saved_files_alike.
           ++ by apply Hsame.
           ++ exact Hdir.
        -- destruct Hlast as [ws' ->]; [done|].
           exists (saved_files (merged td pd (this p)) ++ ws').
           by rewrite <- app_assoc.
    + destruct (rows_of_failed f Hs) as (_ & _ & exc & Hres).
      rewrite (on_future_raise to_csv f exc p Hres (caught_failure f exc Hf0 Hres)).
      rewrite (list_remove_filter f (worker_list (this p)) Hnd)
        by (destruct Hpend as [_ Hin]; apply Hin; by left).
      destruct (pending_after_failure f order (this p) Hnd Hpend) as [Hnd1 Hpend1].
      set (p1 := {| this := set_worker_list (this p) _; out := _ |}).
      destruct (IH p1 Hcb Hnd1 Hpend1) as (Hcalls & Hdir & Hsame & ws & Hws & Hlen & Hlast).
      cbn [fst]. rewrite filter_cons_False by congruence.
      assert (Hc1 : callbacks (out p1) = callbacks (out p)).
      { unfold callbacks. cbn [out p1]. rewrite !omap_app. cbn. by rewrite !app_nil_r. }
      assert (Hw1 : writes (out p1) = writes (out p)).
      { unfold writes. cbn [out p1]. rewrite !omap_app. cbn. by rewrite !app_nil_r. }
      rewrite Hcalls, Hdir, Hws, Hc1, Hw1. cbn [this p1 job_completed set_worker_list log_dir].
      split.
      { rewrite fmap_cons. cbn [concat]. unfold batch_of at 2. by rewrite Hres. }
      split; [done|]. split; [exact Hsame|].
      exists ws. done.
Qed.

(** The same, whatever the failures: the drain is that of the futures
    before the first failure that is not caught. *)
Lemma start_out_any (order : list Future) (p : Proc) :
  writes_succeed to_csv → callback_returns (this p) →
  NoDup (fut_id <$> worker_list (this p)) → pending order (this p) →
  let p' := (start to_csv order p).1 in
  let ok := filter (λ f, succeeded f = true) (handled order) in
  callbacks (out p') = callbacks (out p) ++
    match job_completed (this p) with
    | Some _ => concat (batch_of <$> handled order)
    | None => []
    end ∧
  log_dir (this p') = log_dir (this p) ∧
  (ok = [] → same_logs (this p') (this p)) ∧
  ∃ ws, writes (out p') = writes (out p) ++ ws ∧ length ws = (2 * length ok)%nat ∧
        (ok ≠ [] → ∃ ws', ws = ws' ++ saved_files (this p')).
Proof.
  intros Hw Hcb Hnd Hpend p' ok. subst p'.
  rewrite (proj1 (start_handled to_csv order p)).
  apply (start_quiet_out (handled order) p Hw (handled_caught order) Hcb Hnd
           (pending_handled _ _ Hpend)).
Qed.

End DrainOutput.

(** X9: the futures of an analyser stay distinct.  A new analyser has no
    future; [submit] adds one future at the end of the worker list, newer
    than all others, and touches neither log; [start] keeps the futures
    of the worker list distinct and older than the next one, whether it
    returns or raises.  So the futures of the worker list are pairwise
    distinct at every moment, as the statements on the drain assume. *)
Theorem futures_stay_distinct {ndarray : Type}
    (score_report : ndarray → ndarray → list value → result ScoreReport)
    (clock : nat → Z) :
  (∀ analyser_cache stamp uuid log_dir requested executor train_options job_completed,
     futures_in_order
       (__init__ analyser_cache stamp uuid log_dir requested executor train_options
          job_completed).1) ∧
  (∀ self worker_cache uuid neuralnet_class train_set test_sets kvargs,
     let self' := submit score_report clock self worker_cache uuid neuralnet_class
                    train_set test_sets kvargs in
     (futures_in_order self → futures_in_order self') ∧
     (∃ item, worker_list self' = worker_list self ++ [item] ∧
              fut_id item = futures_made self) ∧
     same_logs self' self) ∧
  (∀ to_csv order p,
     futures_in_order (this p) → futures_in_order (this (start to_csv order p).1)) ∧
  (∀ self, futures_in_order self → distinct_futures self).
Proof.
  split; [|split; [|split]].
  - intros. unfold futures_in_order, __init__. cbn. split; constructor.
  - intros self worker_cache uuid neuralnet_class train_set test_sets kvargs self'.
    subst self'. unfold submit. cbn -[_start_job].
    split; [|split; [by eexists|done]].
    intros [Hnd Hall]. unfold futures_in_order. cbn -[_start_job]. split.
    + rewrite fmap_app. apply NoDup_app. split; [done|]. split.
      * intros i (g & -> & Hg)%list_elem_of_fmap. cbn.
        intros Heq%list_elem_of_singleton.
        rewrite Forall_forall in Hall. specialize (Hall g Hg). lia.
      * cbn. apply NoDup_singleton.
    + apply Forall_app. split.
      * eapply Forall_impl; [exact Hall|]. cbn. intros g Hg. lia.
      * constructor; [cbn; lia|constructor].
  - intros to_csv order p. apply start_futures.
  - by intros self [Hnd _].
Qed.

(** X10: what [save_logs] writes.  [save_logs] leaves the analyser as it
    is.  When the writer does not raise it writes the prediction log to
    [pred.csv] and then the training log to [train.csv], both under the
    log directory, so that a second call with no merge in between writes
    the same two contents again.  When writing the prediction log
    raises, the training log is not written and the exception is raised
    on. *)
Theorem save_logs_writes (to_csv : string → DataFrame → option exn) (p : Proc) :
  this (save_logs to_csv p).1 = this p ∧
  (writes_succeed to_csv →
   (save_logs to_csv p).2 = Ok () ∧
   writes (out (save_logs to_csv p).1) = writes (out p) ++ saved_files (this p) ∧
   writes (out (save_logs to_csv (save_logs to_csv p).1).1)
     = writes (out p) ++ saved_files (this p) ++ saved_files (this p)) ∧
  (∀ e, to_csv (path_join (log_dir (this p)) "pred.csv") (prediction_log (this p))
          = Some e →
        save_logs to_csv p = (p, Raise e)).
Proof.
  split; [|split].
  - rewrite save_logs_eq. cbv zeta.
    destruct (to_csv _ _); [done|]. by destruct (to_csv _ _).
  - intros Hw.
    assert (Hsave : ∀ q, save_logs to_csv q =
      ({| this := this q;
          out := (out q ++ [ToCsv (path_join (log_dir (this q)) "pred.csv")
                              (prediction_log (this q))])
                 ++ [ToCsv (path_join (log_dir (this q)) "train.csv")
                       (train_log (this q))] |}, Ok ())).
    { intros q. rewrite save_logs_eq. cbv zeta. by rewrite !Hw. }
    rewrite (Hsave p). cbn [fst snd]. rewrite (Hsave _). cbn [fst this out].
    unfold writes, saved_files. rewrite !omap_app. cbn.
    by rewrite <- !app_assoc.
  - intros e He. rewrite save_logs_eq. cbv zeta. by rewrite He.
Qed.

(** X11: a drain that cannot persist.  For a future that succeeded the
    records are merged before the callback is called and the files are
    written: when the callback or the writer raises, [start] raises that
    exception at once and looks at no later future, yet the analyser
    already holds the job's records in both logs, and its worker list is
    as before. *)
Theorem start_raises_after_merge (to_csv : string → DataFrame → option exn)
    (p : Proc) (future : Future) (rest : list Future) (td pd : list dict) (e : exn) :
  fut_result future = Ok (td, pd) →
  (on_future to_csv future p).2 = Raise e →
  start to_csv (future :: rest) p = on_future to_csv future p ∧
  (start to_csv (future :: rest) p).2 = Raise e ∧
  let self' := this (start to_csv (future :: rest) p).1 in
  rows (prediction_log self') = rows (prediction_log (this p)) ++ pd ∧
  rows (train_log self') = rows (train_log (this p)) ++ td ∧
  worker_list self' = worker_list (this p).
Proof.
  intros Hres Hraise.
  rewrite (start_stops to_csv future rest p e Hraise).
  split; [done|]. split; [done|]. cbv zeta.
  rewrite (on_future_ok_this to_csv future td pd p Hres).
  destruct (merged_fields td pd (this p)) as (Hwl & _ & _ & Hp & Ht). done.
Qed.

Lemma start_raises_after_merge_witness :
  let p := Sample.proc Sample.one_job in
  let e := Exception "OSError" "No space left on device" in
  (on_future Sample.full_disk Sample.future1 p).2 = Raise e ∧
  (start Sample.full_disk [Sample.future1] p).2 = Raise e ∧
  length (rows (train_log (this (start Sample.full_disk
                                   [Sample.future1] p).1)))
    = 3%nat.
Proof.
  intros p e.
  assert (Hs : succeeded Sample.future1 = true) by (vm_compute; reflexivity).
  destruct (rows_of_succeeded Sample.future1 Hs) as (_ & td & pd & Hres & Htd & _).
  assert (Hlen : length (train_rows_of Sample.future1) = 3%nat)
    by (vm_compute; reflexivity).
  assert (Hraise : (on_future Sample.full_disk Sample.future1 p).2 = Raise e).
  { rewrite (on_future_ok_eq Sample.full_disk Sample.future1 td pd p Hres).
    unfold mbind, SE_bind. cbn [this p Sample.proc].
    change (job_completed Sample.one_job) with (@None (JobResult → option exn)).
    unfold mret, SE_ret. by rewrite save_logs_eq. }
  destruct (start_raises_after_merge Sample.full_disk p Sample.future1
              [] td pd e Hres Hraise) as (_ & Hr & _ & Ht & _).
  split; [exact Hraise|]. split; [exact Hr|].
  rewrite Ht, Htd in *. rewrite length_app, Hlen. reflexivity.
Defined.

Lemma batches_of_succeeded (order : list Future) :
  concat (batch_of <$> order) =
  (λ f, {| train_data := train_rows_of f; prediction_data := prediction_rows_of f |})
    <$> filter (λ f, succeeded f = true) order.
Proof.
  induction order as [|f order IH]; [done|].
  rewrite fmap_cons. cbn [concat]. rewrite IH.
  destruct (succeeded f) eqn:Hs.
  - rewrite filter_cons_True by done.
    destruct (rows_of_succeeded f Hs) as (_ & td & pd & Hres & <- & <-).
    unfold batch_of, train_rows_of, prediction_rows_of. by rewrite Hres.
  - rewrite filter_cons_False by congruence.
    destruct (rows_of_failed f Hs) as (_ & _ & exc & Hres).
    unfold batch_of. by rewrite Hres.
Qed.

Lemma sample_watched_callback : callback_returns Sample.watched.
Proof.
  intros cb r H. vm_compute in H. injection H as <-. reflexivity.
Qed.

Lemma sample_watched_distinct : distinct_futures Sample.watched.
Proof.
  unfold distinct_futures.
  replace (fut_id <$> worker_list Sample.watched) with [0; 1]%nat
    by (vm_compute; reflexivity).
  repeat (apply NoDup_cons; split;
          [rewrite ?elem_of_cons, elem_of_nil; lia|]).
  apply NoDup_nil_2.
Qed.

Lemma sample_watched_as_completed :
  _as_completed Sample.watched (reverse (worker_list Sample.watched)).
Proof. unfold _as_completed. apply reverse_Permutation. Qed.

(** X12: the files follow the logs.  When neither the callback nor the
    writer raises, [start] writes the two files once for every job that
    succeeded among the futures it got through, which are all the futures
    when every failure is an instance of [Exception], and never for a job
    that failed; the log directory stays the same, and the last two files
    written hold the prediction log and the training log as the analyser
    has them when [start] ends.  When none of these jobs succeeded
    nothing is written, and the logs are as they were. *)
Theorem drain_writes_final_logs (to_csv : string → DataFrame → option exn)
    (p : Proc) (order : list Future) :
  writes_succeed to_csv → callback_returns (this p) →
  distinct_futures (this p) → _as_completed (this p) order →
  let p' := (start to_csv order p).1 in
  let ok := filter (λ f, succeeded f = true) (handled order) in
  log_dir (this p') = log_dir (this p) ∧
  (ok = [] → writes (out p') = writes (out p) ∧ same_logs (this p') (this p)) ∧
  (ok ≠ [] →
   ∃ earlier, writes (out p') = writes (out p) ++ earlier ++ saved_files (this p') ∧
              length earlier = (2 * (length ok - 1))%nat) ∧
  (failures_caught order →
   ok ≡ₚ filter (λ f, succeeded f = true) (worker_list (this p))).
Proof.
  intros Hw Hcb Hnd Hperm p' ok.
  destruct (start_out_any to_csv order p Hw Hcb Hnd
              (as_completed_pending _ _ Hnd Hperm))
    as (_ & Hdir & Hsame & ws & Hws & Hlen & Hlast).
  fold p' in Hdir, Hsame, Hws, Hlast. fold ok in Hsame, Hlen, Hlast.
  split; [exact Hdir|]. split; [|split].
  - intros Hnil. rewrite Hnil in Hlen. destruct ws; [|done].
    rewrite app_nil_r in Hws. split; [exact Hws|by apply Hsame].
  - intros Hne. destruct (Hlast Hne) as [ws' ->].
    exists ws'. split; [exact Hws|].
    rewrite length_app in Hlen. cbn [length saved_files] in Hlen. lia.
  - intros Hfc. subst ok. destruct (handled_all order Hfc) as [-> _].
    unfold _as_completed in Hperm. by rewrite Hperm.
Qed.

Lemma drain_writes_final_logs_witness :
  let p := Sample.proc Sample.three_jobs in
  let order := reverse (worker_list Sample.three_jobs) in
  writes_succeed Sample.to_csv ∧ callback_returns (this p) ∧
  distinct_futures (this p) ∧ _as_completed (this p) order ∧
  ∃ earlier,
    writes (out (start Sample.to_csv order p).1)
      = earlier ++ saved_files (this (start Sample.to_csv order p).1) ∧
    length earlier = 2%nat.
Proof.
  intros p order.
  split; [exact sample_writes_succeed|].
  split; [exact sample_callback_returns|].
  split; [exact sample_distinct_futures|].
  split; [exact sample_as_completed|].
  destruct (drain_writes_final_logs Sample.to_csv p order
              sample_writes_succeed sample_callback_returns sample_distinct_futures
              sample_as_completed) as (_ & _ & Hlast & _).
  assert (Hlen : length (filter (λ f, succeeded f = true) (handled order)) = 2%nat)
    by (vm_compute; reflexivity).
  destruct Hlast as (earlier & Hws & Hearlier).
  - intros Hnil. rewrite Hnil in Hlen. discriminate Hlen.
  - exists earlier. split; [exact Hws|]. rewrite Hearlier, Hlen. reflexivity.
Defined.

(** X13: the callback sees every successful job once.  When neither the
    callback nor the writer raises, an analyser that has a callback calls
    it exactly once for every future that succeeded among those [start]
    got through, which are all the futures when every failure is an
    instance of [Exception], in the order in which the futures complete,
    with the training and the prediction records that job returned, and
    never for a future that failed; an analyser without a callback makes
    no call. *)
Theorem callback_once_per_successful_job (to_csv : string → DataFrame → option exn)
    (p : Proc) (order : list Future) :
  writes_succeed to_csv → callback_returns (this p) →
  distinct_futures (this p) → _as_completed (this p) order →
  let p' := (start to_csv order p).1 in
  let ok := filter (λ f, succeeded f = true) (handled order) in
  (job_completed (this p) = None → callbacks (out p') = callbacks (out p)) ∧
  (is_Some (job_completed (this p)) →
   callbacks (out p') = callbacks (out p) ++
     ((λ f, {| train_data := train_rows_of f;
               prediction_data := prediction_rows_of f |}) <$> ok)) ∧
  (failures_caught order → handled order = order).
Proof.
  intros Hw Hcb Hnd Hperm p' ok.
  destruct (start_out_any to_csv order p Hw Hcb Hnd
              (as_completed_pending _ _ Hnd Hperm)) as (Hcalls & _).
  fold p' in Hcalls. split; [|split].
  - intros Hnone. rewrite Hnone in Hcalls. by rewrite app_nil_r in Hcalls.
  - intros [cb Hsome]. rewrite Hsome in Hcalls.
    by rewrite batches_of_succeeded in Hcalls.
  - intros Hfc. by destruct (handled_all order Hfc).
Qed.

Lemma callback_once_per_successful_job_witness :
  let p := Sample.proc Sample.watched in
  let order := reverse (worker_list Sample.watched) in
  writes_succeed Sample.to_csv ∧ callback_returns (this p) ∧
  distinct_futures (this p) ∧ _as_completed (this p) order ∧
  is_Some (job_completed (this p)) ∧
  length (callbacks (out (start Sample.to_csv order p).1)) = 1%nat.
Proof.
  intros p order.
  split; [exact sample_writes_succeed|].
  split; [exact sample_watched_callback|].
  split; [exact sample_watched_distinct|].
  split; [exact sample_watched_as_completed|].
  assert (Hsome : is_Some (job_completed (this p))) by (vm_compute; eauto).
  split; [exact Hsome|].
  rewrite (proj1 (proj2 (callback_once_per_successful_job Sample.to_csv p order
                    sample_writes_succeed sample_watched_callback
                    sample_watched_distinct sample_watched_as_completed)) Hsome).
  rewrite length_app, length_fmap. vm_compute. reflexivity.
Defined.




Lemma merged_app (td1 pd1 td2 pd2 : list dict) (self : t) :
  merged td2 pd2 (merged td1 pd1 self) = merged (td1 ++ td2) (pd1 ++ pd2) self.
Proof.
  unfold merged, append_rows. rewrite !foldl_app. reflexivity.
Qed.

(** X15: merging records into the logs.  [_append_job_data] never raises
    and prints, calls and writes nothing; it puts the prediction records
    after the rows of the prediction log and the training records after
    the rows of the training log, each in the order given, and keeps the
    rows that were there.  Merging one batch and then a second is merging
    both batches joined. *)
Theorem append_job_data_composes (td1 pd1 td2 pd2 : list dict) (p : Proc) :
  let p1 := (_append_job_data td1 pd1 p).1 in
  (_append_job_data td1 pd1 p).2 = Ok () ∧
  out p1 = out p ∧
  rows (prediction_log (this p1)) = rows (prediction_log (this p)) ++ pd1 ∧
  rows (train_log (this p1)) = rows (train_log (this p)) ++ td1 ∧
  _append_job_data td2 pd2 p1 = _append_job_data (td1 ++ td2) (pd1 ++ pd2) p.
Proof.
  cbv zeta. rewrite !_append_job_data_eq. cbn [fst snd this out].
  destruct (merged_fields td1 pd1 (this p)) as (_ & _ & _ & Hp & Ht).
  by rewrite merged_app.
Qed.
